(** * Order Execution Engine: the limit-order pipeline, verified

    A shallow embedding of the TypeScript sources

      - [src/types/index.ts]                 the data model,
      - [src/websocket/wsManager.ts]         the per-order subscriber registry,
      - [src/dex/MockDexRouter.ts]           quotes, venue selection, swap,
      - [src/services/orderService.ts]       the record store interface,
      - [src/services/limitOrderService.ts]  the order state machine and its
                                             price gate,
      - [src/queue/orderQueue.ts]            the queue worker and job options.

    Modelling conventions.

    - A JavaScript [number] is a rational ([Q]); arithmetic and comparisons
      are exact.  Every finite double is among these numbers, and the
      comparison of two doubles is exact, but the arithmetic of the source
      rounds: the router's arithmetic is therefore given a second time in
      double precision (module [Float64]), for the statements that depend
      on how a price is computed.
    - [Math.random()] is a stream [random : nat -> Q]; the state counts the
      draws made so far.  Results about magnitudes assume every draw lies
      in [0, 1), as the language guarantees.
    - [async] code runs in a state-and-exception monad.  The state holds the
      order table, the subscriber registry and the log of the effects
      performed (timers, router calls, limit checks, broadcasts, socket
      sends, store updates), in program order.
    - A thrown value is [JsError msg] (an [Error] and its subclasses) or
      [JsOther].
    - A [Set<WebSocket>] is the list of its members in insertion order,
      without duplicates; a [Map<string, _>] is a [gmap string _].
    - Timestamps ([new Date()]) are left out.  Console output is kept for
      the limit-order service, whose lines record each attempt of the
      gate, and left out for the other modules.
    - Two collaborators are libraries, not sources: the Prisma client is
      the key-indexed record store of the specification, and the queue
      follows the retry policy BullMQ documents for the job options
      [attempts] and [backoff]. *)

From Stdlib Require Import QArith Qabs Qround Lqa ZArith String Ascii DecimalString.
From Stdlib Require Import Floats.
From stdpp Require Import gmap strings list fin_maps.

Local Open Scope string_scope.

(** ** Data model ([src/types/index.ts]) *)

Inductive OrderStatus :=
| pending | routing | limit_check | building | submitted | confirmed | failed.

Inductive OrderType := LIMIT | MARKET | SNIPER.

Inductive DexType := RAYDIUM | METEORA.

#[global] Instance OrderStatus_eq_dec : EqDecision OrderStatus.
Proof. solve_decision. Defined.

#[global] Instance DexType_eq_dec : EqDecision DexType.
Proof. solve_decision. Defined.

(** The [Order] row.  [attempts] is the column that
    [OrderService.incrementAttempts] bumps. *)
Record Order := {
  id : string;
  type : OrderType;
  tokenIn : string;
  tokenOut : string;
  amountIn : Q;
  limitPrice : option Q;
  slippage : Q;
  status : OrderStatus;
  dex : option DexType;
  executedPrice : option Q;
  txHash : option string;
  errorReason : option string;
  attempts : nat
}.

Record DexQuote := {
  q_price : Q;
  q_fee : Q;
  q_dex : DexType
}.

Record DexRouterResult := {
  selectedDex : DexType;
  price : Q;
  fee : Q;
  effectivePrice : Q
}.

Record SwapResult := {
  s_txHash : string;
  s_executedPrice : Q
}.

(** The [data] object of a [WebSocketMessage]: every key the services
    ever set. *)
Record MessageData := {
  d_message : option string;
  d_dex : option DexType;
  d_price : option Q;
  d_limitPrice : option Q;
  d_txHash : option string;
  d_error : option string
}.

Definition noData : MessageData :=
  {| d_message := None; d_dex := None; d_price := None;
     d_limitPrice := None; d_txHash := None; d_error := None |}.

Record WebSocketMessage := {
  m_orderId : string;
  m_status : OrderStatus;
  m_data : option MessageData
}.

(** ** The subscriber registry ([src/websocket/wsManager.ts]) *)

Module WsManager.

(** A socket is known by its identity. *)
Definition WebSocket := nat.

(** [WebSocket.OPEN] *)
Definition OPEN : nat := 1.

(** [Set.prototype.add]: a member stays where it is, a new one goes last. *)
Definition set_add (socket : WebSocket) (sockets : list WebSocket)
  : list WebSocket :=
  if decide (socket ∈ sockets) then sockets else sockets ++ [socket].

(** [Set.prototype.delete] *)
Definition set_delete (socket : WebSocket) (sockets : list WebSocket)
  : list WebSocket :=
  filter (λ s, s ≠ socket) sockets.

Definition register (orderId : string) (socket : WebSocket)
    (connections : gmap string (list WebSocket))
  : gmap string (list WebSocket) :=
  let connections1 :=
    match connections !! orderId with
    | None => <[orderId := []]> connections
    | Some _ => connections
    end in
  alter (set_add socket) orderId connections1.

Definition unregister (orderId : string) (socket : WebSocket)
    (connections : gmap string (list WebSocket))
  : gmap string (list WebSocket) :=
  match connections !! orderId with
  | Some sockets =>
      let sockets1 := set_delete socket sockets in
      let connections1 := <[orderId := sockets1]> connections in
      if Nat.eqb (length sockets1) 0
      then delete orderId connections1
      else connections1
  | None => connections
  end.

(** [emit] returns the sends it performs, in order: one per member of
    the order's set whose [readyState] is [OPEN]. *)
Definition emit (readyState : WebSocket → nat) (orderId : string)
    (message : WebSocketMessage)
    (connections : gmap string (list WebSocket))
  : list (WebSocket * WebSocketMessage) :=
  match connections !! orderId with
  | None => []
  | Some sockets =>
      (λ s, (s, message)) <$> filter (λ s, readyState s = OPEN) sockets
  end.

Definition getConnectionCount (orderId : string)
    (connections : gmap string (list WebSocket)) : nat :=
  match connections !! orderId with
  | Some sockets => length sockets
  | None => 0
  end.

(** [cleanup] closes the open sockets and clears the map. *)
Definition cleanup (connections : gmap string (list WebSocket))
  : gmap string (list WebSocket) := ∅.

(** One call on the manager, and a sequence of calls from the empty
    registry the singleton starts with. *)
Inductive Op :=
| Register (orderId : string) (socket : WebSocket)
| Unregister (orderId : string) (socket : WebSocket)
| Emit (orderId : string) (message : WebSocketMessage)
| Cleanup.

Definition step (connections : gmap string (list WebSocket)) (op : Op)
  : gmap string (list WebSocket) :=
  match op with
  | Register orderId socket => register orderId socket connections
  | Unregister orderId socket => unregister orderId socket connections
  | Emit _ _ => connections
  | Cleanup => cleanup connections
  end.

Definition run (ops : list Op) : gmap string (list WebSocket) :=
  foldl step ∅ ops.

(** How many of the sends of one [emit] go to [socket]. *)
Definition deliveries (socket : WebSocket)
    (sends : list (WebSocket * WebSocketMessage)) : nat :=
  length (filter (λ p, p.1 = socket) sends).

End WsManager.

(** ** Numbers and strings *)

(** JavaScript's [a < b] and [a <= b] on numbers. *)
Definition js_lt (a b : Q) : bool := negb (Qle_bool b a).
Definition js_le (a b : Q) : bool := Qle_bool a b.

Definition string_of_Z (z : Z) : string :=
  NilZero.string_of_uint (N.to_uint (Z.to_N z)).

(** [Number.prototype.toFixed(2)]: the sign, then the integer [n] nearest
    to [100 * |x|] (the larger one on a tie), written with two decimals.
    (The exponent form used from 1e21 on is not modelled.) *)
Definition toFixed2 (x : Q) : string :=
  let n := Qfloor (Qabs x * 100 + 0.5) in
  let cents := (n mod 100)%Z in
  (if js_lt x 0 then "-" else "")
  ++ string_of_Z (n / 100) ++ "."
  ++ (if (cents <? 10)%Z then "0" else "") ++ string_of_Z cents.

(** [`${n}`] for a natural number [n]. *)
Definition string_of_nat (n : nat) : string := string_of_Z (Z.of_nat n).

(** [String.prototype.charAt] at an integral position. *)
Definition charAt (s : string) (i : Z) : string :=
  if (i <? 0)%Z then ""
  else match String.get (Z.to_nat i) s with
       | Some c => String c ""
       | None => ""
       end.

(** ** Effects, state and the monad of [async] code *)

(** [data] of [OrderService.updateOrderStatus]; an absent key leaves the
    column alone. *)
Record UpdateData := {
  u_dex : option DexType;
  u_executedPrice : option Q;
  u_txHash : option string;
  u_errorReason : option string
}.

Definition noUpdate : UpdateData :=
  {| u_dex := None; u_executedPrice := None; u_txHash := None;
     u_errorReason := None |}.

(** A row of the [orderHistory] table; [h_previousStatus = None] stands for
    ['unknown']. *)
Record OrderHistory := {
  h_orderId : string;
  h_previousStatus : option OrderStatus;
  h_newStatus : OrderStatus;
  h_dex : option DexType;
  h_price : option Q
}.

Inductive Effect :=
| Sleep (ms : Q)
    (* LimitOrderService.sleep *)
| NetworkDelay (ms : Q)
    (* MockDexRouter.simulateNetworkDelay *)
| RouteCall (tokenIn tokenOut : string) (amount : Q)
    (* MockDexRouter.routeOrder is entered *)
| LimitCheck (bestPrice : Q) (limitPrice : option Q)
    (* MockDexRouter.checkLimitCondition is evaluated *)
| Broadcast (message : WebSocketMessage)
    (* wsManager.emit is called *)
| Send (socket : WsManager.WebSocket) (payload : WebSocketMessage)
    (* socket.send *)
| SwapCall (dex : DexType) (orderId : string)
    (* MockDexRouter.executeSwap is entered *)
| StoreUpdate (orderId : string) (status : OrderStatus) (data : option UpdateData)
    (* OrderService.updateOrderStatus is called *)
| Backoff (ms : nat)
    (* the queue delays a failed job before its next attempt *)
| ConsoleLog (line : string).
    (* console.log of the limit-order service *)

Record World := {
  draws : nat;
  orders : gmap string Order;
  history : list OrderHistory;
  connections : gmap string (list WsManager.WebSocket);
  effects : list Effect
}.

Definition set_draws (n : nat) (w : World) : World :=
  {| draws := n; orders := orders w; history := history w;
     connections := connections w; effects := effects w |}.

Definition set_orders (o : gmap string Order) (w : World) : World :=
  {| draws := draws w; orders := o; history := history w;
     connections := connections w; effects := effects w |}.

Definition set_history (h : list OrderHistory) (w : World) : World :=
  {| draws := draws w; orders := orders w; history := h;
     connections := connections w; effects := effects w |}.

Definition add_effects (es : list Effect) (w : World) : World :=
  {| draws := draws w; orders := orders w; history := history w;
     connections := connections w; effects := effects w ++ es |}.

Inductive Thrown :=
| JsError (message : string)
| JsOther.

Inductive Completion (A : Type) :=
| Normal (a : A)
| Throw (e : Thrown).

Arguments Normal {A} a.
Arguments Throw {A} e.

Definition M (A : Type) : Type := World → Completion A * World.

#[global] Instance M_ret : MRet M := λ A a w, (Normal a, w).

#[global] Instance M_bind : MBind M := λ A B k c w,
  match c w with
  | (Normal a, w1) => k a w1
  | (Throw e, w1) => (Throw e, w1)
  end.

Definition throw {A : Type} (e : Thrown) : M A := λ w, (Throw e, w).

(** [try { c } catch (error) { h error }] *)
Definition try_catch {A : Type} (c : M A) (h : Thrown → M A) : M A := λ w,
  match c w with
  | (Normal a, w1) => (Normal a, w1)
  | (Throw e, w1) => h e w1
  end.

Definition perform (e : Effect) : M unit := λ w, (Normal tt, add_effects [e] w).

(** [error instanceof Error ? error.message : 'Unknown error'] *)
Definition error_message (error : Thrown) : string :=
  match error with
  | JsError message => message
  | JsOther => "Unknown error"
  end.

(** The [TypeError] of reading [toFixed] off an absent number. *)
Definition typeError_toFixed : Thrown :=
  JsError "Cannot read properties of undefined (reading 'toFixed')".

(** [x.toFixed(2)] where [x] may be absent at run time ([x!]). *)
Definition toFixed2_opt (x : option Q) : M string :=
  match x with
  | Some v => mret (toFixed2 v)
  | None => throw typeError_toFixed
  end.

(** ** The pipeline *)

Record ProcessResult := {
  success : bool;
  r_executedPrice : option Q;
  r_txHash : option string;
  r_error : option string
}.

Record JobData := {
  j_orderId : string;
  j_type : OrderType;
  j_tokenIn : string;
  j_tokenOut : string;
  j_amountIn : Q;
  j_limitPrice : option Q;
  j_slippage : Q
}.

(** What the worker's processor returns on success. *)
Record JobReturn := {
  jr_success : bool;
  jr_orderId : string;
  jr_executedPrice : option Q;
  jr_txHash : option string
}.

(** [MockDexRouter.basePrice] *)
Definition basePrice : Q := 185.50.

(** [LimitOrderService.maxRetries] and [LimitOrderService.retryDelayMs] *)
Definition maxRetries : nat := 3.
Definition retryDelayMs : Q := 3000.

(** The alphabet of [generateMockTxHash]. *)
Definition chars : string :=
  "ABCDEFGHIJKLMNOPQRSTUVWXYZabcdefghijklmnopqrstuvwxyz0123456789".

(** [MockDexRouter.checkLimitCondition]; a comparison with an absent
    ([undefined]) limit is false. *)
Definition checkLimitCondition (bestPrice : Q) (limitPrice : option Q) : bool :=
  match limitPrice with
  | Some limit => js_le bestPrice limit
  | None => false
  end.

(** The part of [MockDexRouter.routeOrder] that follows the two quotes. *)
Definition selectQuote (raydiumQuote meteoraQuote : DexQuote) : DexRouterResult :=
  let raydiumEffective := (q_price raydiumQuote * (1 - q_fee raydiumQuote))%Q in
  let meteoraEffective := (q_price meteoraQuote * (1 - q_fee meteoraQuote))%Q in
  let selectedDex :=
    if js_lt raydiumEffective meteoraEffective then RAYDIUM else METEORA in
  let selectedQuote :=
    if decide (selectedDex = RAYDIUM) then raydiumQuote else meteoraQuote in
  {| selectedDex := selectedDex;
     price := q_price selectedQuote;
     fee := q_fee selectedQuote;
     effectivePrice := (q_price selectedQuote * (1 - q_fee selectedQuote))%Q |}.

(** The columns [updateOrderStatus] writes. *)
Definition apply_update (status : OrderStatus) (data : option UpdateData)
    (o : Order) : Order :=
  let keep {A} (new old : option A) : option A :=
    match new with Some _ => new | None => old end in
  let d := default noUpdate data in
  {| id := id o; type := type o; tokenIn := tokenIn o; tokenOut := tokenOut o;
     amountIn := amountIn o; limitPrice := limitPrice o;
     slippage := slippage o;
     status := status;
     dex := keep (u_dex d) (dex o);
     executedPrice := keep (u_executedPrice d) (executedPrice o);
     txHash := keep (u_txHash d) (txHash o);
     errorReason := keep (u_errorReason d) (errorReason o);
     attempts := attempts o |}.

Definition bump_attempts (o : Order) : Order :=
  {| id := id o; type := type o; tokenIn := tokenIn o; tokenOut := tokenOut o;
     amountIn := amountIn o; limitPrice := limitPrice o;
     slippage := slippage o; status := status o; dex := dex o;
     executedPrice := executedPrice o; txHash := txHash o;
     errorReason := errorReason o; attempts := S (attempts o) |}.

(** Job options of [addOrderToQueue]: [attempts] and the delay of the
    exponential [backoff]. *)
Record JobsOptions := {
  jo_attempts : nat;
  jo_backoff_delay : nat
}.

Definition addOrderToQueue_options : JobsOptions :=
  {| jo_attempts := 3; jo_backoff_delay := 1000 |}.

(** How a job ends. *)
Inductive JobState :=
| JobCompleted (returnvalue : JobReturn)
| JobFailed (failedReason : string).

Section Pipeline.

(** The draws of [Math.random()] and the [readyState] of every socket. *)
Variable random : nat → Q.
Variable readyState : WsManager.WebSocket → nat.

Definition mathRandom : M Q := λ w,
  (Normal (random (draws w)), set_draws (S (draws w)) w).

(** *** [src/dex/MockDexRouter.ts] *)

Definition simulateNetworkDelay (ms : Q) : M unit := perform (NetworkDelay ms).

Definition getRaydiumQuote (_tokenIn _tokenOut : string) (_amount : Q)
  : M DexQuote :=
  simulateNetworkDelay 200;;
  r ← mathRandom;
  let variance := (0.98 + r * 0.04)%Q in
  mret {| q_price := (basePrice * variance)%Q; q_fee := 0.003; q_dex := RAYDIUM |}.

Definition getMeteorQuote (_tokenIn _tokenOut : string) (_amount : Q)
  : M DexQuote :=
  simulateNetworkDelay 200;;
  r ← mathRandom;
  let variance := (0.97 + r * 0.05)%Q in
  mret {| q_price := (basePrice * variance)%Q; q_fee := 0.002; q_dex := METEORA |}.

(** Both quote calls pause on equal timers started in this order, so they
    resume, and draw, in this order. *)
Definition routeOrder (tokenIn tokenOut : string) (amount : Q)
  : M DexRouterResult :=
  perform (RouteCall tokenIn tokenOut amount);;
  raydiumQuote ← getRaydiumQuote tokenIn tokenOut amount;
  meteoraQuote ← getMeteorQuote tokenIn tokenOut amount;
  mret (selectQuote raydiumQuote meteoraQuote).

Fixpoint generateMockTxHash_loop (n : nat) (hash : string) : M string :=
  match n with
  | O => mret hash
  | S n' =>
      r ← mathRandom;
      let i := Qfloor (r * inject_Z (Z.of_nat (String.length chars))) in
      generateMockTxHash_loop n' (hash ++ charAt chars i)
  end.

Definition generateMockTxHash : M string := generateMockTxHash_loop 88 "".

Definition executeSwap (dex : DexType) (orderId : string) : M SwapResult :=
  perform (SwapCall dex orderId);;
  r ← mathRandom;
  let executionTime := (2000 + r * 1000)%Q in
  simulateNetworkDelay executionTime;;
  hash ← generateMockTxHash;
  r' ← mathRandom;
  let executedPrice := (basePrice * (0.99 + r' * 0.02))%Q in
  mret {| s_txHash := hash; s_executedPrice := executedPrice |}.

(** *** [src/services/orderService.ts] *)

(** Modelled from the spec: the Prisma client of [src/db/prisma], which is
    not among the sources, as the record store the spec describes: a table
    of orders indexed by id, whose [update] rewrites the row of a key that
    is present, and an append-only history.  Its operations do not throw. *)
Definition prisma_order_findUnique (orderId : string) : M (option Order) :=
  λ w, (Normal (orders w !! orderId), w).

Definition prisma_order_update (orderId : string) (change : Order → Order)
  : M unit :=
  λ w, (Normal tt, set_orders (alter change orderId (orders w)) w).

Definition prisma_orderHistory_create (row : OrderHistory) : M unit :=
  λ w, (Normal tt, set_history (history w ++ [row]) w).

Definition getOrderById (orderId : string) : M (option Order) :=
  prisma_order_findUnique orderId.

(** The history row is written only when [data] is given, and reads the
    status back after the update. *)
Definition updateOrderStatus (orderId : string) (newStatus : OrderStatus)
    (data : option UpdateData) : M unit :=
  perform (StoreUpdate orderId newStatus data);;
  prisma_order_update orderId (apply_update newStatus data);;
  match data with
  | Some d =>
      current ← getOrderById orderId;
      prisma_orderHistory_create
        {| h_orderId := orderId;
           h_previousStatus := status <$> current;
           h_newStatus := newStatus;
           h_dex := u_dex d;
           h_price := u_executedPrice d |}
  | None => mret tt
  end.

Definition incrementAttempts (orderId : string) : M unit :=
  prisma_order_update orderId bump_attempts.

(** *** [src/services/limitOrderService.ts] *)

Definition sleep (ms : Q) : M unit := perform (Sleep ms).

(** [emitStatus] builds the message and hands it to [wsManager.emit]. *)
Definition emitStatus (orderId : string) (status : OrderStatus)
    (data : option MessageData) : M unit := λ w,
  let message :=
    {| m_orderId := orderId; m_status := status; m_data := data |} in
  let sends := WsManager.emit readyState orderId message (connections w) in
  (Normal tt,
   add_effects (Broadcast message :: ((λ p, Send p.1 p.2) <$> sends)) w).

(** The three lines [checkLimitWithRetry] logs. *)
Definition passedLine (orderId : string) (attempt : nat) (currentPrice : Q)
    (limit : string) : string :=
  "[LIMIT CHECK] Order " ++ orderId ++ " passed on attempt "
  ++ string_of_nat attempt ++ ": $" ++ toFixed2 currentPrice
  ++ " <= $" ++ limit.

Definition failedLine (orderId : string) (currentPrice : Q) (limit : string)
  : string :=
  "[LIMIT CHECK] Order " ++ orderId ++ " failed after "
  ++ string_of_nat maxRetries ++ " attempts. Best: $" ++ toFixed2 currentPrice
  ++ ", Limit: $" ++ limit.

Definition retryLine (attempt : nat) : string :=
  "[LIMIT CHECK] Attempt " ++ string_of_nat attempt ++ "/"
  ++ string_of_nat maxRetries ++ " failed. Retrying in "
  ++ string_of_Z (Qfloor retryDelayMs) ++ "ms...".

Definition console_log (line : string) : M unit := perform (ConsoleLog line).

(** [checkLimitWithRetry] calls itself with [attempt + 1] while
    [attempt < maxRetries]; [fuel] bounds the depth of these calls. *)
Fixpoint checkLimitWithRetry_rec (fuel : nat) (orderId : string)
    (currentPrice : Q) (limitPrice : option Q) (attempt : nat) : M bool :=
  perform (LimitCheck currentPrice limitPrice);;
  if checkLimitCondition currentPrice limitPrice then
    limit ← toFixed2_opt limitPrice;
    console_log (passedLine orderId attempt currentPrice limit);;
    mret true
  else if (maxRetries <=? attempt)%nat then
    limit ← toFixed2_opt limitPrice;
    console_log (failedLine orderId currentPrice limit);;
    mret false
  else
    match fuel with
    | O => mret false
    | S fuel' =>
        console_log (retryLine attempt);;
        sleep retryDelayMs;;
        newRoute ← routeOrder "SOL" "USDC" 1.5;
        checkLimitWithRetry_rec fuel' orderId (effectivePrice newRoute)
          limitPrice (attempt + 1)
    end.

Definition checkLimitWithRetry (orderId : string) (currentPrice : Q)
    (limitPrice : option Q) (attempt : nat) : M bool :=
  checkLimitWithRetry_rec (maxRetries - attempt) orderId currentPrice
    limitPrice attempt.

(** The message of the [Error] thrown when the gate gives up. *)
Definition limitNotReachedMessage (bestPrice : Q) (limit : string) : string :=
  "Limit price not reached after " ++ string_of_Z (Z.of_nat maxRetries)
  ++ " attempts. Best price: $" ++ toFixed2 bestPrice
  ++ ", Limit: $" ++ limit.

(** The [try] block of [processLimitOrder]. *)
Definition processLimitOrder_try (order : Order) : M ProcessResult :=
  (* Step 1: Routing *)
  emitStatus (id order) routing
    (Some {| d_message := Some "Fetching quotes from DEXes...";
             d_dex := None; d_price := None; d_limitPrice := None;
             d_txHash := None; d_error := None |});;
  routeResult ← routeOrder (tokenIn order) (tokenOut order) (amountIn order);
  (* Step 2: Limit check with retry logic *)
  emitStatus (id order) limit_check
    (Some {| d_message := None;
             d_dex := Some (selectedDex routeResult);
             d_price := Some (effectivePrice routeResult);
             d_limitPrice := limitPrice order;
             d_txHash := None; d_error := None |});;
  limitSatisfied ← checkLimitWithRetry (id order)
                     (effectivePrice routeResult) (limitPrice order) 1;
  (if negb limitSatisfied
   then limit ← toFixed2_opt (limitPrice order);
        throw (JsError (limitNotReachedMessage
                          (effectivePrice routeResult) limit))
   else mret tt);;
  (* Step 3: Building *)
  emitStatus (id order) building
    (Some {| d_message := Some "Building transaction...";
             d_dex := None; d_price := None; d_limitPrice := None;
             d_txHash := None; d_error := None |});;
  sleep 500;;
  (* Step 4: Submitted *)
  emitStatus (id order) submitted
    (Some {| d_message := Some "Submitting to network...";
             d_dex := None; d_price := None; d_limitPrice := None;
             d_txHash := None; d_error := None |});;
  (* Step 5: Execute swap *)
  swapResult ← executeSwap (selectedDex routeResult) (id order);
  (* Step 6: Confirmed *)
  emitStatus (id order) confirmed
    (Some {| d_message := None;
             d_dex := Some (selectedDex routeResult);
             d_price := Some (s_executedPrice swapResult);
             d_limitPrice := None;
             d_txHash := Some (s_txHash swapResult); d_error := None |});;
  updateOrderStatus (id order) confirmed
    (Some {| u_dex := Some (selectedDex routeResult);
             u_executedPrice := Some (s_executedPrice swapResult);
             u_txHash := Some (s_txHash swapResult);
             u_errorReason := None |});;
  mret {| success := true;
          r_executedPrice := Some (s_executedPrice swapResult);
          r_txHash := Some (s_txHash swapResult);
          r_error := None |}.

(** Its [catch] block. *)
Definition processLimitOrder_catch (order : Order) (error : Thrown)
  : M ProcessResult :=
  let errorMessage := error_message error in
  emitStatus (id order) failed
    (Some {| d_message := None; d_dex := None; d_price := None;
             d_limitPrice := None; d_txHash := None;
             d_error := Some errorMessage |});;
  updateOrderStatus (id order) failed
    (Some {| u_dex := None; u_executedPrice := None; u_txHash := None;
             u_errorReason := Some errorMessage |});;
  mret {| success := false; r_executedPrice := None; r_txHash := None;
          r_error := Some errorMessage |}.

Definition processLimitOrder (order : Order) : M ProcessResult :=
  try_catch (processLimitOrder_try order) (processLimitOrder_catch order).

(** *** [src/queue/orderQueue.ts] *)

(** [result.error || 'Order processing failed'] *)
Definition error_or_default (error : option string) : string :=
  match error with
  | Some "" | None => "Order processing failed"
  | Some message => message
  end.

(** The processor that [setupOrderWorker] gives the worker. *)
Definition processor (job : JobData) : M JobReturn :=
  try_catch
    (order ← getOrderById (j_orderId job);
     match order with
     | None =>
         throw (JsError ("Order " ++ j_orderId job ++ " not found"))
     | Some order =>
         incrementAttempts (id order);;
         result ← processLimitOrder order;
         if negb (success result)
         then throw (JsError (error_or_default (r_error result)))
         else mret {| jr_success := true;
                      jr_orderId := j_orderId job;
                      jr_executedPrice := r_executedPrice result;
                      jr_txHash := r_txHash result |}
     end)
    (λ error, throw error).

(** The queue's handling of one job under [JobsOptions], as BullMQ
    documents it: a job whose processor throws is run again, until it has
    been attempted [attempts] times; before the attempt that follows the
    [k]-th failure the job is delayed by [2 ^ (k - 1) * delay] ms. *)
Fixpoint runJob_rec (opts : JobsOptions) (remaining attemptsMade : nat)
    (job : JobData) (w : World) : JobState * World :=
  match processor job w with
  | (Normal returnvalue, w1) => (JobCompleted returnvalue, w1)
  | (Throw e, w1) =>
      match remaining with
      | O => (JobFailed (error_message e), w1)
      | S remaining' =>
          let k := S attemptsMade in
          runJob_rec opts remaining' k job
            (add_effects [Backoff (2 ^ (k - 1) * jo_backoff_delay opts)] w1)
      end
  end.

Definition runJob (opts : JobsOptions) (job : JobData) (w : World)
  : JobState * World :=
  runJob_rec opts (jo_attempts opts - 1) 0 job w.

End Pipeline.

(** ** Observations on the effect log *)

(** The statuses broadcast, in order. *)
Definition statuses (es : list Effect) : list OrderStatus :=
  omap (λ e, match e with Broadcast m => Some (m_status m) | _ => None end) es.

(** The arguments of every router call, in order. *)
Definition routeCalls (es : list Effect) : list (string * string * Q) :=
  omap (λ e, match e with
             | RouteCall a b c => Some (a, b, c)
             | _ => None
             end) es.

(** The prices the gate evaluated, in order. *)
Definition limitChecks (es : list Effect) : list Q :=
  omap (λ e, match e with LimitCheck p _ => Some p | _ => None end) es.

(** The waits of [LimitOrderService.sleep], in order. *)
Definition sleeps (es : list Effect) : list Q :=
  omap (λ e, match e with Sleep ms => Some ms | _ => None end) es.

(** The lines written to the console, in order. *)
Definition consoleLines (es : list Effect) : list string :=
  omap (λ e, match e with ConsoleLog line => Some line | _ => None end) es.

(** The delays the queue imposed between attempts, in order. *)
Definition backoffs (es : list Effect) : list nat :=
  omap (λ e, match e with Backoff ms => Some ms | _ => None end) es.

(** The failure reasons written to the store, in order. *)
Definition failureReasons (es : list Effect) : list string :=
  omap (λ e, match e with
             | StoreUpdate _ failed (Some d) => u_errorReason d
             | _ => None
             end) es.

(** The messages with status [s] sent to [socket]. *)
Definition received (socket : WsManager.WebSocket) (s : OrderStatus)
    (es : list Effect) : list WebSocketMessage :=
  omap (λ e, match e with
             | Send k m =>
                 if decide (k = socket ∧ m_status m = s) then Some m else None
             | _ => None
             end) es.

(** ** Vocabulary of the statements *)

(** The effects a run added to the log of the state it started in. *)
Definition new_effects (w w' : World) : list Effect :=
  drop (length (effects w)) (effects w').

(** [k] more draws and the effects [es], everything else as it was. *)
Definition advance (k : nat) (es : list Effect) (w : World) : World :=
  {| draws := k + draws w; orders := orders w; history := history w;
     connections := connections w; effects := effects w ++ es |}.

(** The state [updateOrderStatus] leaves. *)
Definition persisted (orderId : string) (newStatus : OrderStatus)
    (data : option UpdateData) (w : World) : World :=
  snd (updateOrderStatus orderId newStatus data w).

(** The reason a run fails with, from the completion [g] of its gate. *)
Definition failureMessage (g : Completion bool) (bestPrice : Q)
    (limit : option Q) : string :=
  match g with
  | Throw e => error_message e
  | Normal _ =>
      match limit with
      | Some l => limitNotReachedMessage bestPrice (toFixed2 l)
      | None => error_message typeError_toFixed
      end
  end.

(** [confirmed] and [failed] *)
Definition terminal (s : OrderStatus) : Prop := s = confirmed ∨ s = failed.

(** The statuses in lifecycle order, with [n] limit checks and the
    terminal status [t]. *)
Definition lifecycle (n : nat) (t : OrderStatus) : list OrderStatus :=
  [pending; routing] ++ replicate n limit_check ++ [building; submitted; t].

Section Draws.

Variable random : nat → Q.
Variable readyState : WsManager.WebSocket → nat.

(** The quotes, and the routing decision, that start at draw [n]. *)
Definition raydiumAt (n : nat) : DexQuote :=
  {| q_price := (basePrice * (0.98 + random n * 0.04))%Q;
     q_fee := 0.003; q_dex := RAYDIUM |}.

Definition meteoraAt (n : nat) : DexQuote :=
  {| q_price := (basePrice * (0.97 + random n * 0.05))%Q;
     q_fee := 0.002; q_dex := METEORA |}.

Definition routeAt (n : nat) : DexRouterResult :=
  selectQuote (raydiumAt n) (meteoraAt (S n)).

(** What one [wsManager.emit] adds to the log. *)
Definition broadcastEffects (connections : gmap string (list WsManager.WebSocket))
    (message : WebSocketMessage) : list Effect :=
  Broadcast message
  :: ((λ p, Send p.1 p.2)
      <$> WsManager.emit readyState (m_orderId message) message connections).

(** The gate seen from outside: its completion, the draws it makes and the
    effects it adds, when entered with price [p] at draw [n]. *)
Fixpoint gateRun (fuel : nat) (orderId : string) (p : Q) (limit : option Q)
    (attempt n : nat) : Completion bool * nat * list Effect :=
  if checkLimitCondition p limit then
    match limit with
    | Some l =>
        (Normal true, 0,
         [LimitCheck p limit;
          ConsoleLog (passedLine orderId attempt p (toFixed2 l))])
    | None => (Throw typeError_toFixed, 0, [LimitCheck p limit])
    end
  else if (maxRetries <=? attempt)%nat then
    match limit with
    | Some l =>
        (Normal false, 0,
         [LimitCheck p limit; ConsoleLog (failedLine orderId p (toFixed2 l))])
    | None => (Throw typeError_toFixed, 0, [LimitCheck p limit])
    end
  else
    match fuel with
    | O => (Normal false, 0, [LimitCheck p limit])
    | S fuel' =>
        let '(r, k, es) :=
          gateRun fuel' orderId (effectivePrice (routeAt n)) limit
            (attempt + 1) (2 + n) in
        (r, 2 + k,
         ([LimitCheck p limit; ConsoleLog (retryLine attempt);
           Sleep retryDelayMs; RouteCall "SOL" "USDC" 1.5;
           NetworkDelay 200; NetworkDelay 200] ++ es)%list)
    end.

(** The gate of the run of [order] that starts in [w]: entered at attempt
    1 with the price of the first routing decision, after its two draws. *)
Definition gateOf (order : Order) (w : World)
  : Completion bool * nat * list Effect :=
  gateRun (maxRetries - 1) (id order) (effectivePrice (routeAt (draws w)))
    (limitPrice order) 1 (2 + draws w).

(** The hash built from the draws [n], [n + 1], ... *)
Fixpoint hashAt (k n : nat) (hash : string) : string :=
  match k with
  | O => hash
  | S k' =>
      hashAt k' (S n)
        (hash ++ charAt chars
                   (Qfloor (random n * inject_Z (Z.of_nat (String.length chars)))))
  end.

(** The receipt of a swap that starts at draw [n]. *)
Definition swapAt (n : nat) : SwapResult :=
  {| s_txHash := hashAt 88 (S n) "";
     s_executedPrice := (basePrice * (0.99 + random (89 + n) * 0.02))%Q |}.

End Draws.

(** Every set held by the registry has a member and lists it once. *)
Definition well_formed (connections : gmap string (list WsManager.WebSocket))
  : Prop :=
  ∀ orderId sockets,
    connections !! orderId = Some sockets → sockets ≠ [] ∧ NoDup sockets.

(** ** Sample inputs *)

(** Draws 0.5, 0.25, 0.75, 0.1, then 0.9 for ever. *)
Definition sampleRandom (n : nat) : Q :=
  match n with
  | 0%nat => 0.5%Q
  | 1%nat => 0.25%Q
  | 2%nat => 0.75%Q
  | 3%nat => 0.1%Q
  | _ => 0.9%Q
  end.

Definition allOpen : WsManager.WebSocket → nat := λ _, WsManager.OPEN.

(** An ETH/USDT order for 10 units with limit price [limit]. *)
Definition sampleOrder (limit : Q) : Order :=
  {| id := "o1"; type := LIMIT; tokenIn := "ETH"; tokenOut := "USDT";
     amountIn := 10; limitPrice := Some limit; slippage := 0.02;
     status := pending; dex := None; executedPrice := None; txHash := None;
     errorReason := None; attempts := 0 |}.

Definition sampleJob (limit : Q) : JobData :=
  {| j_orderId := "o1"; j_type := LIMIT; j_tokenIn := "ETH";
     j_tokenOut := "USDT"; j_amountIn := 10; j_limitPrice := Some limit;
     j_slippage := 0.02 |}.

(** The order is stored, socket 7 subscribed to it, nothing drawn or
    logged yet. *)
Definition sampleWorld (limit : Q) : World :=
  {| draws := 0; orders := {[ "o1" := sampleOrder limit ]}; history := [];
     connections := WsManager.run [WsManager.Register "o1" 7%nat];
     effects := [] |}.

(** A market order, which carries no limit price, and the state that
    stores it. *)
Definition marketOrder : Order :=
  {| id := "o1"; type := MARKET; tokenIn := "ETH"; tokenOut := "USDT";
     amountIn := 10; limitPrice := None; slippage := 0.02;
     status := pending; dex := None; executedPrice := None; txHash := None;
     errorReason := None; attempts := 0 |}.

Definition marketWorld : World :=
  {| draws := 0; orders := {[ "o1" := marketOrder ]}; history := [];
     connections := WsManager.run [WsManager.Register "o1" 7%nat];
     effects := [] |}.

(** Draws 0.9 six times, then 0 for ever: with the limit 180 the first
    run of a job misses the limit three times and the second meets it. *)
Definition retryRandom (n : nat) : Q :=
  if (n <? 6)%nat then 0.9%Q else 0%Q.

(** A job for an order that is not stored. *)
Definition strayJob : JobData :=
  {| j_orderId := "o2"; j_type := LIMIT; j_tokenIn := "ETH";
     j_tokenOut := "USDT"; j_amountIn := 10; j_limitPrice := Some 100%Q;
     j_slippage := 0.02 |}.

(** Socket 7 subscribed to order o1, socket 9 to order o2. *)
Definition twoOrders : gmap string (list WsManager.WebSocket) :=
  WsManager.run [WsManager.Register "o1" 7%nat; WsManager.Register "o2" 9%nat].

(** ** Further observations and the log of a whole run *)

(** The sockets subscribed to an order, in the order they were added. *)
Definition subscribers (orderId : string)
    (connections : gmap string (list WsManager.WebSocket))
  : list WsManager.WebSocket :=
  default [] (connections !! orderId).

(** The calls of [updateOrderStatus], in order. *)
Definition storeUpdates (es : list Effect)
  : list (string * OrderStatus * option UpdateData) :=
  omap (λ e, match e with
             | StoreUpdate orderId s data => Some (orderId, s, data)
             | _ => None
             end) es.

(** The messages handed to [wsManager.emit], in order. *)
Definition broadcasts (es : list Effect) : list WebSocketMessage :=
  omap (λ e, match e with Broadcast m => Some m | _ => None end) es.

(** The messages sent to [socket], in order. *)
Definition delivered (socket : WsManager.WebSocket) (es : list Effect)
  : list WebSocketMessage :=
  omap (λ e, match e with
             | Send k m => if decide (k = socket) then Some m else None
             | _ => None
             end) es.

(** The swaps requested, in order. *)
Definition swapCalls (es : list Effect) : list (DexType * string) :=
  omap (λ e, match e with SwapCall d i => Some (d, i) | _ => None end) es.

(** The messages [processLimitOrder] builds for [emitStatus]. *)
Definition statusMessage (order : Order) (s : OrderStatus) (data : MessageData)
  : WebSocketMessage :=
  {| m_orderId := id order; m_status := s; m_data := Some data |}.

Definition routingMessage (order : Order) : WebSocketMessage :=
  statusMessage order routing
    {| d_message := Some "Fetching quotes from DEXes...";
       d_dex := None; d_price := None; d_limitPrice := None;
       d_txHash := None; d_error := None |}.

Definition limitCheckMessage (order : Order) (routeResult : DexRouterResult)
  : WebSocketMessage :=
  statusMessage order limit_check
    {| d_message := None;
       d_dex := Some (selectedDex routeResult);
       d_price := Some (effectivePrice routeResult);
       d_limitPrice := limitPrice order;
       d_txHash := None; d_error := None |}.

Definition buildingMessage (order : Order) : WebSocketMessage :=
  statusMessage order building
    {| d_message := Some "Building transaction...";
       d_dex := None; d_price := None; d_limitPrice := None;
       d_txHash := None; d_error := None |}.

Definition submittedMessage (order : Order) : WebSocketMessage :=
  statusMessage order submitted
    {| d_message := Some "Submitting to network...";
       d_dex := None; d_price := None; d_limitPrice := None;
       d_txHash := None; d_error := None |}.

Definition confirmedMessage (order : Order) (routeResult : DexRouterResult)
    (swapResult : SwapResult) : WebSocketMessage :=
  statusMessage order confirmed
    {| d_message := None;
       d_dex := Some (selectedDex routeResult);
       d_price := Some (s_executedPrice swapResult);
       d_limitPrice := None;
       d_txHash := Some (s_txHash swapResult); d_error := None |}.

Definition failedMessage (order : Order) (errorMessage : string)
  : WebSocketMessage :=
  statusMessage order failed
    {| d_message := None; d_dex := None; d_price := None;
       d_limitPrice := None; d_txHash := None;
       d_error := Some errorMessage |}.

(** The [data] of its two calls of [updateOrderStatus]. *)
Definition confirmedUpdate (routeResult : DexRouterResult)
    (swapResult : SwapResult) : UpdateData :=
  {| u_dex := Some (selectedDex routeResult);
     u_executedPrice := Some (s_executedPrice swapResult);
     u_txHash := Some (s_txHash swapResult);
     u_errorReason := None |}.

Definition failedUpdate (errorMessage : string) : UpdateData :=
  {| u_dex := None; u_executedPrice := None; u_txHash := None;
     u_errorReason := Some errorMessage |}.

Section RunLog.

Variable random : nat → Q.
Variable readyState : WsManager.WebSocket → nat.

(** What a run logs before it enters the gate. *)
Definition logToGate (order : Order) (w : World) : list Effect :=
  (broadcastEffects readyState (connections w) (routingMessage order)
   ++ [RouteCall (tokenIn order) (tokenOut order) (amountIn order);
       NetworkDelay 200; NetworkDelay 200]
   ++ broadcastEffects readyState (connections w)
        (limitCheckMessage order (routeAt random (draws w))))%list.

(** What it logs after a gate that passed and made [k] draws, up to
    the update of the store. *)
Definition logAfterGate (order : Order) (w : World) (k : nat) : list Effect :=
  let routeResult := routeAt random (draws w) in
  let n := (2 + k + draws w)%nat in
  (broadcastEffects readyState (connections w) (buildingMessage order)
   ++ [Sleep 500]
   ++ broadcastEffects readyState (connections w) (submittedMessage order)
   ++ [SwapCall (selectedDex routeResult) (id order);
       NetworkDelay (2000 + random n * 1000)]
   ++ broadcastEffects readyState (connections w)
        (confirmedMessage order routeResult (swapAt random n)))%list.

End RunLog.

(** ** The statistics of [src/services/orderService.ts] *)

(** What [getStatistics] returns: [{ pending, routing, confirmed, failed,
    total }]. *)
Record Statistics := {
  n_pending : nat;
  n_routing : nat;
  n_confirmed : nat;
  n_failed : nat;
  n_total : nat
}.

(** The rows of the order table. *)
Definition rows (w : World) : list Order := (map_to_list (orders w)).*2.

(** The rows with status [s] among [l]. *)
Definition countWhere (s : OrderStatus) (l : list Order) : nat :=
  length (filter (λ row, status row = s) l).

(** Modelled from the spec: [prisma.order.count] on the record store the
    spec describes; [where_status] is the [where: { status }] of the
    query, absent when every row is counted. *)
Definition prisma_order_count (where_status : option OrderStatus) : M nat :=
  λ w,
    (Normal match where_status with
            | Some s => countWhere s (rows w)
            | None => length (rows w)
            end, w).

(** The five counts are requested in this order. *)
Definition getStatistics : M Statistics :=
  nPending ← prisma_order_count (Some pending);
  nRouting ← prisma_order_count (Some routing);
  nConfirmed ← prisma_order_count (Some confirmed);
  nFailed ← prisma_order_count (Some failed);
  nTotal ← prisma_order_count None;
  mret {| n_pending := nPending; n_routing := nRouting;
          n_confirmed := nConfirmed; n_failed := nFailed;
          n_total := nTotal |}.

(** Every row is in one of the statuses that are ever written to the
    store: [pending] by [createOrder], [confirmed] and [failed] by the
    state machine. *)
Definition settled (o : gmap string Order) : Prop :=
  map_Forall (λ _ row, status row = pending ∨ terminal (status row)) o.

(** ** The venue router in double precision ([src/dex/MockDexRouter.ts]) *)

(** Here a [number] is a binary64 [float]: [*], [+], [-] and [<] are the
    operations of IEEE 754, which JavaScript uses, and a decimal literal
    denotes the double nearest to it, as it does in the source. *)

#[local] Set Warnings "-inexact-float".

Module Float64.

Record DexQuote := {
  q_price : float;
  q_fee : float;
  q_dex : DexType
}.

Record DexRouterResult := {
  selectedDex : DexType;
  price : float;
  fee : float;
  effectivePrice : float
}.

(** [MockDexRouter.basePrice] *)
Definition basePrice : float := 185.50%float.

(** [MockDexRouter.checkLimitCondition] *)
Definition checkLimitCondition (bestPrice limitPrice : float) : bool :=
  (bestPrice <=? limitPrice)%float.

(** The part of [MockDexRouter.routeOrder] that follows the two quotes. *)
Definition selectQuote (raydiumQuote meteoraQuote : DexQuote) : DexRouterResult :=
  let raydiumEffective :=
    (q_price raydiumQuote * (1 - q_fee raydiumQuote))%float in
  let meteoraEffective :=
    (q_price meteoraQuote * (1 - q_fee meteoraQuote))%float in
  let selectedDex :=
    if (raydiumEffective <? meteoraEffective)%float then RAYDIUM else METEORA in
  let selectedQuote :=
    if decide (selectedDex = RAYDIUM) then raydiumQuote else meteoraQuote in
  {| selectedDex := selectedDex;
     price := q_price selectedQuote;
     fee := q_fee selectedQuote;
     effectivePrice :=
       (q_price selectedQuote * (1 - q_fee selectedQuote))%float |}.

(** The quotes built from a draw [r] of [Math.random()]. *)
Definition raydiumAt (r : float) : DexQuote :=
  let variance := (0.98 + r * 0.04)%float in
  {| q_price := (basePrice * variance)%float; q_fee := 0.003%float;
     q_dex := RAYDIUM |}.

Definition meteoraAt (r : float) : DexQuote :=
  let variance := (0.97 + r * 0.05)%float in
  {| q_price := (basePrice * variance)%float; q_fee := 0.002%float;
     q_dex := METEORA |}.

Section Router.

(** The draws of [Math.random()]. *)
Variable random : nat → float.

Definition mathRandom : M float := λ w,
  (Normal (random (draws w)), set_draws (S (draws w)) w).

Definition getRaydiumQuote (_tokenIn _tokenOut : string) (_amount : float)
  : M DexQuote :=
  simulateNetworkDelay 200;;
  r ← mathRandom;
  let variance := (0.98 + r * 0.04)%float in
  mret {| q_price := (basePrice * variance)%float; q_fee := 0.003%float;
          q_dex := RAYDIUM |}.

Definition getMeteorQuote (_tokenIn _tokenOut : string) (_amount : float)
  : M DexQuote :=
  simulateNetworkDelay 200;;
  r ← mathRandom;
  let variance := (0.97 + r * 0.05)%float in
  mret {| q_price := (basePrice * variance)%float; q_fee := 0.002%float;
          q_dex := METEORA |}.

(** Both quote calls pause on equal timers started in this order, so they
    resume, and draw, in this order. *)
Definition routeOrder (tokenIn tokenOut : string) (amount : float)
  : M DexRouterResult :=
  raydiumQuote ← getRaydiumQuote tokenIn tokenOut amount;
  meteoraQuote ← getMeteorQuote tokenIn tokenOut amount;
  mret (selectQuote raydiumQuote meteoraQuote).

End Router.

End Float64.

(** The draws the doubles 0.15084917392450192 and 0.30091913940098475,
    then 0.5 for ever. *)
Definition closeRandom (n : nat) : float :=
  match n with
  | 0%nat => 0.15084917392450192%float
  | 1%nat => 0.30091913940098475%float
  | _ => 0.5%float
  end.

(** * Properties *)

(** ** The subscriber registry *)

Module WsFacts.
Import WsManager.

Lemma set_add_elem socket sockets : socket ∈ set_add socket sockets.
Proof.
  unfold set_add. case_decide; [done |]. apply elem_of_app. right. by left.
Qed.

Lemma set_add_nonempty socket sockets : set_add socket sockets ≠ [].
Proof.
  intros E. pose proof (set_add_elem socket sockets) as H.
  rewrite E in H. by apply elem_of_nil in H.
Qed.

Lemma set_add_NoDup socket sockets :
  NoDup sockets → NoDup (set_add socket sockets).
Proof.
  intros H. unfold set_add. case_decide; [done |].
  apply NoDup_app. split_and!; [done | | apply NoDup_singleton].
  intros x Hx Hx'. apply list_elem_of_singleton in Hx'. by subst.
Qed.

Lemma set_add_idemp socket sockets :
  set_add socket (set_add socket sockets) = set_add socket sockets.
Proof.
  unfold set_add at 1. case_decide as H; [done |].
  destruct H. apply set_add_elem.
Qed.

Lemma set_delete_not_elem socket sockets : socket ∉ set_delete socket sockets.
Proof.
  unfold set_delete. intros H. apply list_elem_of_filter in H. by destruct H.
Qed.

Lemma set_delete_NoDup socket sockets :
  NoDup sockets → NoDup (set_delete socket sockets).
Proof. apply NoDup_filter. Qed.

Lemma register_lookup orderId socket connections :
  register orderId socket connections !! orderId
  = Some (set_add socket (default [] (connections !! orderId))).
Proof.
  unfold register. destruct (connections !! orderId) as [sockets|] eqn:E.
  - rewrite lookup_alter_eq, E. done.
  - rewrite lookup_alter_eq, lookup_insert_eq. done.
Qed.

Lemma register_lookup_ne orderId orderId' socket connections :
  orderId ≠ orderId' →
  register orderId socket connections !! orderId' = connections !! orderId'.
Proof.
  intros Hne. unfold register.
  destruct (connections !! orderId) as [sockets|] eqn:E.
  - by rewrite lookup_alter_ne.
  - rewrite lookup_alter_ne, lookup_insert_ne; done.
Qed.

Lemma unregister_lookup orderId socket connections :
  unregister orderId socket connections !! orderId
  = match connections !! orderId with
    | Some sockets =>
        if decide (set_delete socket sockets = []) then None
        else Some (set_delete socket sockets)
    | None => None
    end.
Proof.
  unfold unregister. destruct (connections !! orderId) as [sockets|] eqn:E;
    [| done].
  destruct (set_delete socket sockets) as [|s l] eqn:D; simpl.
  - rewrite delete_insert_eq, lookup_delete_eq. done.
  - rewrite lookup_insert_eq. done.
Qed.

Lemma unregister_lookup_ne orderId orderId' socket connections :
  orderId ≠ orderId' →
  unregister orderId socket connections !! orderId' = connections !! orderId'.
Proof.
  intros Hne. unfold unregister.
  destruct (connections !! orderId) as [sockets|] eqn:E; [| done].
  destruct (Nat.eqb (length (set_delete socket sockets)) 0).
  - rewrite lookup_delete_ne, lookup_insert_ne; done.
  - rewrite lookup_insert_ne; done.
Qed.

Lemma well_formed_empty : well_formed ∅.
Proof. intros k l H. by rewrite lookup_empty in H. Qed.

Lemma well_formed_register orderId socket connections :
  well_formed connections → well_formed (register orderId socket connections).
Proof.
  intros WF k l H. destruct (decide (orderId = k)) as [->|Hne].
  - rewrite register_lookup in H. injection H as <-. split.
    + apply set_add_nonempty.
    + apply set_add_NoDup.
      destruct (connections !! k) as [sockets|] eqn:E; simpl.
      * by apply (WF k).
      * apply NoDup_nil_2.
  - rewrite register_lookup_ne in H by done. by apply (WF k).
Qed.

Lemma well_formed_unregister orderId socket connections :
  well_formed connections → well_formed (unregister orderId socket connections).
Proof.
  intros WF k l H. destruct (decide (orderId = k)) as [->|Hne].
  - rewrite unregister_lookup in H.
    destruct (connections !! k) as [sockets|] eqn:E; [| done].
    case_decide as D; [done |]. injection H as <-. split; [done |].
    apply set_delete_NoDup. by apply (WF k).
  - rewrite unregister_lookup_ne in H by done. by apply (WF k).
Qed.

Lemma well_formed_step connections op :
  well_formed connections → well_formed (step connections op).
Proof.
  intros WF. destruct op; simpl.
  - by apply well_formed_register.
  - by apply well_formed_unregister.
  - done.
  - apply well_formed_empty.
Qed.

Lemma well_formed_foldl ops connections :
  well_formed connections → well_formed (foldl step connections ops).
Proof.
  revert connections. induction ops as [|op ops IH]; intros c WF; simpl.
  - done.
  - apply IH. by apply well_formed_step.
Qed.

Lemma well_formed_run ops : well_formed (run ops).
Proof. apply well_formed_foldl, well_formed_empty. Qed.

Lemma deliveries_absent (socket : WebSocket) (message : WebSocketMessage)
    (sockets : list WebSocket) :
  socket ∉ sockets →
  deliveries socket ((λ s, (s, message)) <$> sockets) = 0%nat.
Proof.
  unfold deliveries. induction sockets as [|x l IH]; intros Hn; simpl; [done |].
  apply not_elem_of_cons in Hn as [Hne Hn].
  rewrite filter_cons_False by (simpl; congruence). by apply IH.
Qed.

Lemma deliveries_NoDup (socket : WebSocket) (message : WebSocketMessage)
    (sockets : list WebSocket) :
  NoDup sockets →
  (deliveries socket ((λ s, (s, message)) <$> sockets) ≤ 1)%nat.
Proof.
  induction 1 as [|x l Hx ND IH]; [unfold deliveries; simpl; lia |].
  destruct (decide (x = socket)) as [->|Hne].
  - pose proof (deliveries_absent socket message l Hx) as H0.
    unfold deliveries in *. rewrite fmap_cons, filter_cons_True by done.
    cbn [length]. rewrite H0. lia.
  - unfold deliveries in *. rewrite fmap_cons.
    by rewrite filter_cons_False.
Qed.

Lemma deliveries_emit_le_1 readyState orderId message socket connections :
  well_formed connections →
  (deliveries socket (emit readyState orderId message connections) ≤ 1)%nat.
Proof.
  intros WF. unfold emit.
  destruct (connections !! orderId) as [sockets|] eqn:E;
    [| unfold deliveries; simpl; lia].
  destruct (WF _ _ E) as [_ ND].
  apply deliveries_NoDup. by apply NoDup_filter.
Qed.

Lemma deliveries_emit_absent readyState orderId message socket connections :
  socket ∉ default [] (connections !! orderId) →
  deliveries socket (emit readyState orderId message connections) = 0%nat.
Proof.
  intros Hn. unfold emit.
  destruct (connections !! orderId) as [sockets|] eqn:E; [| done].
  apply deliveries_absent. simpl in Hn. intros H.
  apply list_elem_of_filter in H. by destruct H.
Qed.

(** C9. Whatever calls were made on the manager, the registry holds no
    empty set; and when the set of an order has [socket] as its only
    member, unregistering it removes the order's entry, after which
    [getConnectionCount] is 0. *)
Theorem registry_holds_no_empty_set (ops : list Op) (orderId : string)
    (sockets : list WebSocket) :
  run ops !! orderId = Some sockets →
  sockets ≠ [] ∧
  ∀ socket,
    (∀ s, s ∈ sockets → s = socket) →
    unregister orderId socket (run ops) !! orderId = None ∧
    getConnectionCount orderId (unregister orderId socket (run ops)) = 0%nat.
Proof.
  intros E. split; [by apply (well_formed_run ops orderId) |].
  intros socket Hall.
  assert (unregister orderId socket (run ops) !! orderId = None) as HN.
  { rewrite unregister_lookup, E. case_decide as D; [done |].
    destruct (set_delete socket sockets) as [|s l] eqn:F; [done |].
    assert (s ∈ set_delete socket sockets) as Hs by (rewrite F; by left).
    unfold set_delete in Hs. apply list_elem_of_filter in Hs as [Hne Hin].
    by apply Hall in Hin. }
  split; [done |]. unfold getConnectionCount. by rewrite HN.
Qed.

(** C10. Registering a socket that is already registered for the order
    changes nothing: the registry and the count stay as they are, an
    [emit] sends to the socket at most once, and one [unregister] leaves
    the socket out of the order's set, so that an [emit] sends it nothing. *)
Theorem register_twice_is_idempotent (ops : list Op) (orderId : string)
    (socket : WebSocket) (readyState : WebSocket → nat)
    (message : WebSocketMessage) :
  let once := register orderId socket (run ops) in
  let twice := register orderId socket once in
  twice = once ∧
  getConnectionCount orderId twice = getConnectionCount orderId once ∧
  (deliveries socket (emit readyState orderId message twice) ≤ 1)%nat ∧
  (socket ∉ default [] (unregister orderId socket twice !! orderId)) ∧
  (deliveries socket
     (emit readyState orderId message (unregister orderId socket twice))
   = 0%nat).
Proof.
  intros once twice.
  assert (twice = once) as Heq.
  { apply map_eq. intros k. unfold twice, once.
    destruct (decide (orderId = k)) as [->|Hne].
    - rewrite !register_lookup. simpl. by rewrite set_add_idemp.
    - by rewrite !register_lookup_ne. }
  assert (socket ∉ default [] (unregister orderId socket twice !! orderId))
    as Hout.
  { rewrite unregister_lookup.
    destruct (twice !! orderId) as [sockets|]; simpl; [| apply not_elem_of_nil].
    case_decide; simpl; [apply not_elem_of_nil | apply set_delete_not_elem]. }
  split_and!; [done | by rewrite Heq | | done |].
  - apply deliveries_emit_le_1. unfold twice, once.
    apply well_formed_register, well_formed_register, well_formed_run.
  - by apply deliveries_emit_absent.
Qed.

End WsFacts.

(** ** Running the monad *)

Lemma bind_run {A B : Type} (c : M A) (k : A → M B) (w : World) :
  (c ≫= k) w
  = match c w with
    | (Normal a, w1) => k a w1
    | (Throw e, w1) => (Throw e, w1)
    end.
Proof. reflexivity. Qed.

Lemma try_catch_run {A : Type} (c : M A) (h : Thrown → M A) (w : World) :
  try_catch c h w
  = match c w with
    | (Normal a, w1) => (Normal a, w1)
    | (Throw e, w1) => h e w1
    end.
Proof. reflexivity. Qed.

Lemma advance_advance k1 es1 k2 es2 w :
  advance k2 es2 (advance k1 es1 w) = advance (k2 + k1) (es1 ++ es2) w.
Proof.
  unfold advance. cbn [draws orders history connections effects].
  f_equal; [lia | by rewrite app_assoc].
Qed.

Lemma advance_0_nil w :
  advance 0 [] w
  = {| draws := draws w; orders := orders w; history := history w;
       connections := connections w; effects := effects w |}.
Proof. unfold advance. f_equal. apply app_nil_r. Qed.


Lemma perform_run e w : perform e w = (Normal tt, advance 0 [e] w).
Proof. reflexivity. Qed.

(** ** Reading the log *)

Local Open Scope list_scope.

Lemma statuses_app es1 es2 : statuses (es1 ++ es2) = statuses es1 ++ statuses es2.
Proof. apply omap_app. Qed.

Lemma limitChecks_app es1 es2 :
  limitChecks (es1 ++ es2) = limitChecks es1 ++ limitChecks es2.
Proof. apply omap_app. Qed.

Lemma routeCalls_app es1 es2 :
  routeCalls (es1 ++ es2) = routeCalls es1 ++ routeCalls es2.
Proof. apply omap_app. Qed.

Lemma sleeps_app es1 es2 : sleeps (es1 ++ es2) = sleeps es1 ++ sleeps es2.
Proof. apply omap_app. Qed.

Lemma omap_sends {B : Type} (f : Effect → option B)
    (sends : list (WsManager.WebSocket * WebSocketMessage)) :
  (∀ k m, f (Send k m) = None) →
  omap f ((λ p, Send p.1 p.2) <$> sends) = [].
Proof.
  intros Hf. induction sends as [|[k m] sends IH]; [done |].
  rewrite fmap_cons. cbn [omap list_omap fst snd]. rewrite Hf. apply IH.
Qed.

Lemma statuses_broadcastEffects readyState connections message :
  statuses (broadcastEffects readyState connections message)
  = [m_status message].
Proof.
  unfold statuses, broadcastEffects. cbn [omap list_omap]. f_equal.
  by apply omap_sends.
Qed.

Lemma limitChecks_broadcastEffects readyState connections message :
  limitChecks (broadcastEffects readyState connections message) = [].
Proof.
  unfold limitChecks, broadcastEffects. cbn [omap list_omap].
  by apply omap_sends.
Qed.

Lemma routeCalls_broadcastEffects readyState connections message :
  routeCalls (broadcastEffects readyState connections message) = [].
Proof.
  unfold routeCalls, broadcastEffects. cbn [omap list_omap].
  by apply omap_sends.
Qed.

Lemma sleeps_broadcastEffects readyState connections message :
  sleeps (broadcastEffects readyState connections message) = [].
Proof.
  unfold sleeps, broadcastEffects. cbn [omap list_omap].
  by apply omap_sends.
Qed.

Create Rewrite HintDb log.

#[global] Hint Rewrite statuses_app limitChecks_app routeCalls_app sleeps_app
  statuses_broadcastEffects limitChecks_broadcastEffects
  routeCalls_broadcastEffects sleeps_broadcastEffects : log.

Section PipelineFacts.

Variable random : nat → Q.
Variable readyState : WsManager.WebSocket → nat.

Lemma mathRandom_run w :
  mathRandom random w = (Normal (random (draws w)), advance 1 [] w).
Proof.
  unfold mathRandom, set_draws, advance. do 2 f_equal. by rewrite app_nil_r.
Qed.

Lemma getRaydiumQuote_run a b c w :
  getRaydiumQuote random a b c w
  = (Normal (raydiumAt random (draws w)), advance 1 [NetworkDelay 200] w).
Proof.
  unfold getRaydiumQuote, simulateNetworkDelay.
  rewrite bind_run, perform_run. cbv beta iota.
  rewrite bind_run, mathRandom_run. cbv beta iota.
  rewrite advance_advance. reflexivity.
Qed.

Lemma getMeteorQuote_run a b c w :
  getMeteorQuote random a b c w
  = (Normal (meteoraAt random (draws w)), advance 1 [NetworkDelay 200] w).
Proof.
  unfold getMeteorQuote, simulateNetworkDelay.
  rewrite bind_run, perform_run. cbv beta iota.
  rewrite bind_run, mathRandom_run. cbv beta iota.
  rewrite advance_advance. reflexivity.
Qed.

Lemma routeOrder_run a b c w :
  routeOrder random a b c w
  = (Normal (routeAt random (draws w)),
     advance 2 [RouteCall a b c; NetworkDelay 200; NetworkDelay 200] w).
Proof.
  unfold routeOrder.
  rewrite bind_run, perform_run. cbv beta iota.
  rewrite bind_run, getRaydiumQuote_run. cbv beta iota.
  rewrite bind_run, getMeteorQuote_run. cbv beta iota.
  rewrite !advance_advance. reflexivity.
Qed.

Lemma emitStatus_run orderId st data w :
  emitStatus readyState orderId st data w
  = (Normal tt,
     advance 0
       (broadcastEffects readyState (connections w)
          {| m_orderId := orderId; m_status := st; m_data := data |}) w).
Proof. reflexivity. Qed.

(** The gate does what [gateRun] says, and touches nothing else. *)
Lemma checkLimitWithRetry_rec_run fuel orderId p limit attempt w :
  checkLimitWithRetry_rec random fuel orderId p limit attempt w
  = let '(r, k, es) := gateRun random fuel orderId p limit attempt (draws w) in
    (r, advance k es w).
Proof.
  revert p attempt w.
  induction fuel as [|fuel IH]; intros p attempt w;
    cbn [checkLimitWithRetry_rec gateRun];
    rewrite bind_run, perform_run; cbv beta iota;
    (destruct (checkLimitCondition p limit);
     [| destruct (maxRetries <=? attempt)%nat]);
    try (destruct limit as [l|]; unfold console_log;
         repeat first [ rewrite bind_run | rewrite perform_run
                      | progress cbn [toFixed2_opt mret M_ret throw]
                      | progress cbv beta iota ];
         rewrite ?advance_advance; reflexivity);
    try reflexivity.
  unfold sleep, console_log. rewrite bind_run, perform_run. cbv beta iota.
  rewrite bind_run, perform_run. cbv beta iota.
  rewrite bind_run, routeOrder_run. cbv beta iota.
  rewrite IH, !advance_advance.
  repeat match goal with
         | |- context [draws (advance ?k ?es w)] =>
             let n := eval cbv in k in
             change (draws (advance k es w)) with (n + draws w)%nat
         end.
  cbn [Nat.add].
  destruct (gateRun random fuel orderId _ limit (attempt + 1) _) as [[r k] es].
  rewrite advance_advance. f_equal.
  unfold advance. f_equal. lia.
Qed.

Lemma generateMockTxHash_loop_run k hash w :
  generateMockTxHash_loop random k hash w
  = (Normal (hashAt random k (draws w) hash), advance k [] w).
Proof.
  revert hash w. induction k as [|k IH]; intros hash w;
    cbn [generateMockTxHash_loop hashAt].
  - unfold mret, M_ret. by rewrite advance_0_nil; destruct w.
  - rewrite bind_run, mathRandom_run. cbv beta iota.
    rewrite IH, advance_advance. f_equal.
    unfold advance. f_equal. lia.
Qed.

Lemma executeSwap_run dex orderId w :
  executeSwap random dex orderId w
  = (Normal (swapAt random (draws w)),
     advance 90 [SwapCall dex orderId;
                 NetworkDelay (2000 + random (draws w) * 1000)] w).
Proof.
  unfold executeSwap, simulateNetworkDelay, generateMockTxHash.
  rewrite bind_run, perform_run. cbv beta iota.
  rewrite bind_run, mathRandom_run. cbv beta iota.
  rewrite bind_run, perform_run. cbv beta iota.
  rewrite bind_run, generateMockTxHash_loop_run. cbv beta iota.
  rewrite bind_run, mathRandom_run. cbv beta iota.
  rewrite !advance_advance. reflexivity.
Qed.

Lemma updateOrderStatus_run orderId st data w :
  updateOrderStatus orderId st data w = (Normal tt, persisted orderId st data w).
Proof. unfold persisted, updateOrderStatus. by destruct data. Qed.

(** *** The gate *)

Lemma gateRun_first_pass fuel orderId p l attempt n :
  checkLimitCondition p (Some l) = true →
  gateRun random fuel orderId p (Some l) attempt n
  = (Normal true, 0%nat,
     [LimitCheck p (Some l);
      ConsoleLog (passedLine orderId attempt p (toFixed2 l))]).
Proof. intros H. destruct fuel; cbn [gateRun]; by rewrite H. Qed.

(** The gate broadcasts nothing; it evaluates the limit once more than it
    waits, and every wait is followed by one router call with the same
    fixed arguments and two draws. *)
Lemma gateRun_log fuel orderId p limit attempt n :
  ∃ m,
    (m ≤ fuel)%nat ∧
    statuses (gateRun random fuel orderId p limit attempt n).2 = [] ∧
    length (limitChecks (gateRun random fuel orderId p limit attempt n).2) = S m ∧
    (gateRun random fuel orderId p limit attempt n).1.2 = (2 * m)%nat ∧
    sleeps (gateRun random fuel orderId p limit attempt n).2 = replicate m retryDelayMs ∧
    routeCalls (gateRun random fuel orderId p limit attempt n).2
    = replicate m ("SOL", "USDC", 1.5%Q).
Proof.
  revert p attempt n. induction fuel as [|fuel IH]; intros p attempt n;
    cbn [gateRun];
    destruct (checkLimitCondition p limit);
    try (destruct limit; exists 0%nat; split_and!; first [lia | done]);
    destruct (maxRetries <=? attempt)%nat;
    try (destruct limit; exists 0%nat; split_and!; first [lia | done]);
    try (exists 0%nat; split_and!; first [lia | done]).
  destruct (IH (effectivePrice (routeAt random n)) (attempt + 1)%nat (2 + n)%nat)
    as (m & Hm & Hst & Hlc & Hk & Hsl & Hrc).
  destruct (gateRun random fuel orderId _ limit (attempt + 1) (2 + n)) as [[r k] es].
  cbn [fst snd] in *. exists (S m). split_and!.
  - lia.
  - rewrite statuses_app, Hst. done.
  - rewrite limitChecks_app, length_app, Hlc. done.
  - lia.
  - rewrite sleeps_app, Hsl. done.
  - rewrite routeCalls_app, Hrc. done.
Qed.

(** A gate that does not succeed has evaluated the limit at every attempt
    from [attempt] to [maxRetries]. *)
Lemma gateRun_exhausted fuel orderId p limit attempt n :
  (attempt ≤ maxRetries)%nat →
  (maxRetries - attempt ≤ fuel)%nat →
  (gateRun random fuel orderId p limit attempt n).1.1 ≠ Normal true →
  length (limitChecks (gateRun random fuel orderId p limit attempt n).2)
  = S (maxRetries - attempt).
Proof.
  revert p attempt n. induction fuel as [|fuel IH]; intros p attempt n Ha Hf;
    cbn [gateRun];
    (destruct (checkLimitCondition p limit) eqn:C;
     [destruct limit; [intros H; by destruct H | discriminate C] |]);
    destruct (maxRetries <=? attempt)%nat eqn:E;
    try (apply Nat.leb_le in E; intros _; destruct limit;
         cbn [snd limitChecks omap list_omap length]; f_equal; lia).
  - apply Nat.leb_gt in E. lia.
  - apply Nat.leb_gt in E.
    specialize (IH (effectivePrice (routeAt random n)) (attempt + 1)%nat
                  (2 + n)%nat).
    destruct (gateRun random fuel orderId _ limit (attempt + 1) (2 + n)) as [[r k] es].
    cbn [fst snd] in *. intros Hr.
    rewrite limitChecks_app, length_app, IH by (done || lia).
    cbn [limitChecks omap list_omap length]. lia.
Qed.

(** [maxRetries - attempt] nested calls are all the gate ever makes: with
    that much fuel or more the result is the same, so the branch that
    runs out of fuel is never taken. *)
Lemma gateRun_enough_fuel fuel fuel' orderId p limit attempt n :
  (maxRetries - attempt ≤ fuel)%nat →
  (maxRetries - attempt ≤ fuel')%nat →
  gateRun random fuel orderId p limit attempt n = gateRun random fuel' orderId p limit attempt n.
Proof.
  revert fuel' p attempt n.
  induction fuel as [|fuel IH]; intros [|fuel'] p attempt n H H';
    cbn [gateRun]; try reflexivity;
    destruct (checkLimitCondition p limit); try reflexivity;
    destruct (maxRetries <=? attempt)%nat eqn:E; try reflexivity;
    apply Nat.leb_gt in E; try lia.
  rewrite (IH fuel') by lia. reflexivity.
Qed.

Lemma checkLimitWithRetry_enough_fuel fuel orderId p limit attempt w :
  (maxRetries - attempt ≤ fuel)%nat →
  checkLimitWithRetry_rec random fuel orderId p limit attempt w
  = checkLimitWithRetry random orderId p limit attempt w.
Proof.
  intros H. unfold checkLimitWithRetry. rewrite !checkLimitWithRetry_rec_run.
  by rewrite (gateRun_enough_fuel fuel (maxRetries - attempt)).
Qed.

(** *** The state machine *)

Ltac run_with lem := rewrite bind_run, lem; cbv beta iota.

Ltac is_numeral n :=
  lazymatch n with
  | O => idtac
  | S ?m => is_numeral m
  end.

Ltac read_state w :=
  rewrite ?advance_advance;
  repeat match goal with
         | |- context [draws (advance ?k ?es w)] =>
             tryif (let n := eval cbv in k in is_numeral n)
             then (let n := eval cbv in k in
                   lazymatch n with
                   | O => change (draws (advance k es w)) with (draws w)
                   | _ => change (draws (advance k es w)) with (n + draws w)%nat
                   end)
             else change (draws (advance k es w)) with (k + draws w)%nat
         | |- context [connections (advance ?k ?es w)] =>
             change (connections (advance k es w)) with (connections w)
         end.

Lemma processLimitOrder_catch_run order e w :
  processLimitOrder_catch readyState order e w
  = (Normal {| success := false; r_executedPrice := None; r_txHash := None;
               r_error := Some (error_message e) |},
     persisted (id order) failed
       (Some {| u_dex := None; u_executedPrice := None; u_txHash := None;
                u_errorReason := Some (error_message e) |})
       (advance 0
          (broadcastEffects readyState (connections w)
             {| m_orderId := id order; m_status := failed;
                m_data :=
                  Some {| d_message := None; d_dex := None; d_price := None;
                          d_limitPrice := None; d_txHash := None;
                          d_error := Some (error_message e) |} |}) w)).
Proof.
  unfold processLimitOrder_catch.
  run_with emitStatus_run. run_with updateOrderStatus_run. reflexivity.
Qed.

Ltac close_run w n Hst :=
  read_state w;
  match goal with
  | |- context [advance ?j ?es w] =>
      replace j with n by lia; exists es
  end;
  split; [reflexivity |];
  autorewrite with log; rewrite ?Hst, ?app_nil_r;
  split_and!; reflexivity.

Lemma run_failed order w g k ges :
  gateRun random 2 (id order) (effectivePrice (routeAt random (draws w)))
    (limitPrice order) 1 (2 + draws w) = (g, k, ges) →
  g ≠ Normal true →
  ∃ es,
    processLimitOrder random readyState order w
    = (Normal {| success := false; r_executedPrice := None; r_txHash := None;
                 r_error :=
                   Some (failureMessage g
                           (effectivePrice (routeAt random (draws w)))
                           (limitPrice order)) |},
       persisted (id order) failed
         (Some {| u_dex := None; u_executedPrice := None; u_txHash := None;
                  u_errorReason :=
                    Some (failureMessage g
                            (effectivePrice (routeAt random (draws w)))
                            (limitPrice order)) |})
         (advance (2 + k) es w)) ∧
    statuses es = [routing; limit_check; failed] ∧
    limitChecks es = limitChecks ges ∧
    routeCalls es
    = (tokenIn order, tokenOut order, amountIn order) :: routeCalls ges ∧
    sleeps es = sleeps ges.
Proof.
  intros G Hg.
  unfold processLimitOrder, processLimitOrder_try. rewrite try_catch_run.
  run_with emitStatus_run. run_with routeOrder_run. read_state w.
  run_with emitStatus_run. read_state w.
  unfold checkLimitWithRetry. rewrite bind_run, checkLimitWithRetry_rec_run.
  read_state w.
  change (maxRetries - 1)%nat with 2%nat. rewrite G. cbv beta iota.
  pose proof (gateRun_log 2 (id order) (effectivePrice (routeAt random (draws w)))
                (limitPrice order) 1 (2 + draws w)) as (m & _ & Hst & _).
  rewrite G in Hst. cbn [snd] in Hst.
  destruct g as [[|]|e]; [done | |]; cbv beta iota; cbn [negb].
  - destruct (limitPrice order) as [l|] eqn:L; cbn [toFixed2_opt].
    + rewrite !bind_run. cbn [mret M_ret throw]. cbv beta iota.
      rewrite processLimitOrder_catch_run. close_run w (2 + k)%nat Hst.
    + rewrite !bind_run. cbn [throw]. cbv beta iota.
      rewrite processLimitOrder_catch_run. close_run w (2 + k)%nat Hst.
  - rewrite processLimitOrder_catch_run. close_run w (2 + k)%nat Hst.
Qed.

Lemma run_confirmed order w k ges :
  gateRun random 2 (id order) (effectivePrice (routeAt random (draws w)))
    (limitPrice order) 1 (2 + draws w) = (Normal true, k, ges) →
  ∃ es,
    processLimitOrder random readyState order w
    = (Normal {| success := true;
                 r_executedPrice :=
                   Some (s_executedPrice (swapAt random (2 + k + draws w)));
                 r_txHash := Some (s_txHash (swapAt random (2 + k + draws w)));
                 r_error := None |},
       persisted (id order) confirmed
         (Some {| u_dex := Some (selectedDex (routeAt random (draws w)));
                  u_executedPrice :=
                    Some (s_executedPrice (swapAt random (2 + k + draws w)));
                  u_txHash :=
                    Some (s_txHash (swapAt random (2 + k + draws w)));
                  u_errorReason := None |})
         (advance (92 + k) es w)) ∧
    statuses es = [routing; limit_check; building; submitted; confirmed] ∧
    limitChecks es = limitChecks ges ∧
    routeCalls es
    = (tokenIn order, tokenOut order, amountIn order) :: routeCalls ges ∧
    sleeps es = sleeps ges ++ [500%Q].
Proof.
  intros G.
  unfold processLimitOrder, processLimitOrder_try. rewrite try_catch_run.
  run_with emitStatus_run. run_with routeOrder_run. read_state w.
  run_with emitStatus_run. read_state w.
  unfold checkLimitWithRetry. rewrite bind_run, checkLimitWithRetry_rec_run.
  read_state w.
  change (maxRetries - 1)%nat with 2%nat. rewrite G. cbv beta iota.
  pose proof (gateRun_log 2 (id order) (effectivePrice (routeAt random (draws w)))
                (limitPrice order) 1 (2 + draws w)) as (m & _ & Hst & _).
  rewrite G in Hst. cbn [snd] in Hst.
  cbn [negb]. rewrite bind_run. cbn [mret M_ret]. cbv beta iota.
  run_with emitStatus_run. unfold sleep. run_with perform_run.
  run_with emitStatus_run. run_with executeSwap_run.
  run_with emitStatus_run. run_with updateOrderStatus_run.
  cbn [mret M_ret]. cbv beta iota. read_state w.
  repeat match goal with
         | |- context [swapAt random ?n] =>
             lazymatch n with
             | (2 + k + draws w)%nat => fail
             | _ => replace n with (2 + k + draws w)%nat by lia
             end
         end.
  close_run w (92 + k)%nat Hst.
Qed.

(** *** What a run leaves behind *)

Lemma effects_persisted orderId st data w :
  effects (persisted orderId st data w)
  = effects w ++ [StoreUpdate orderId st data].
Proof. unfold persisted, updateOrderStatus. by destruct data. Qed.

Lemma orders_persisted orderId st data w :
  orders (persisted orderId st data w)
  = alter (apply_update st data) orderId (orders w).
Proof. unfold persisted, updateOrderStatus. by destruct data. Qed.

Lemma new_effects_persisted orderId st data k es w :
  new_effects w (persisted orderId st data (advance k es w))
  = es ++ [StoreUpdate orderId st data].
Proof.
  unfold new_effects. rewrite effects_persisted. cbn [advance effects].
  by rewrite <- app_assoc, drop_app_length.
Qed.

(** Every run returns, in one of two ways. *)
Lemma run_cases order w :
  let run := processLimitOrder random readyState order w in
  let es := new_effects w run.2 in
  let ges := (gateOf random order w).2 in
  ∃ res,
    run.1 = Normal res ∧
    limitChecks es = limitChecks ges ∧
    routeCalls es
    = (tokenIn order, tokenOut order, amountIn order) :: routeCalls ges ∧
    ((gateOf random order w).1.1 = Normal true ∧ success res = true ∧
     r_error res = None ∧
     statuses es = [routing; limit_check; building; submitted; confirmed] ∧
     sleeps es = sleeps ges ++ [500%Q]
     ∨
     (gateOf random order w).1.1 ≠ Normal true ∧ success res = false ∧
     r_error res
     = Some (failureMessage (gateOf random order w).1.1
               (effectivePrice (routeAt random (draws w))) (limitPrice order)) ∧
     statuses es = [routing; limit_check; failed] ∧
     sleeps es = sleeps ges).
Proof.
  intros run es ges. subst run es ges. unfold gateOf.
  change (maxRetries - 1)%nat with 2%nat.
  destruct (gateRun random 2 (id order) (effectivePrice (routeAt random (draws w)))
              (limitPrice order) 1 (2 + draws w)) as [[g k] ges] eqn:G.
  cbn [fst snd].
  assert (g = Normal true ∨ g ≠ Normal true) as [->|Hg]
    by (destruct g as [[|]|e]; [by left | by right..]).
  - destruct (run_confirmed order w k ges G) as (es & -> & Hst & Hlc & Hrc & Hsl).
    cbn [fst snd]. rewrite new_effects_persisted.
    autorewrite with log. rewrite Hst, Hlc, Hrc, Hsl, !app_nil_r.
    eexists. split_and!; [reflexivity | done | done |]. left. done.
  - destruct (run_failed order w g k ges G Hg) as (es & -> & Hst & Hlc & Hrc & Hsl).
    cbn [fst snd]. rewrite new_effects_persisted.
    autorewrite with log. rewrite Hst, Hlc, Hrc, Hsl, !app_nil_r.
    eexists. split_and!; [reflexivity | done | done |]. right. done.
Qed.

(** ** One run of the state machine *)

Ltac sublist_greedy :=
  repeat first [apply sublist_nil | apply sublist_skip | apply sublist_cons].

Ltac by_position H i :=
  do 6 (try (destruct i as [|i]; simpl in H; try discriminate H)).

(** C5. The statuses one run broadcasts are, in order, a subsequence of
    pending, routing, limit_check (any number of times), building,
    submitted, then confirmed or failed; limit_check never comes after
    building, and a terminal status comes last. *)
Theorem broadcast_statuses_follow_lifecycle order w :
  let ss :=
    statuses (new_effects w (processLimitOrder random readyState order w).2) in
  (∃ n t, terminal t ∧ ss `sublist_of` lifecycle n t) ∧
  (∀ i j, ss !! i = Some building → ss !! j = Some limit_check → (j < i)%nat) ∧
  (∀ i s, ss !! i = Some s → terminal s → S i = length ss).
Proof.
  intros ss.
  destruct (run_cases order w)
    as (res & _ & _ & _ & [(_ & _ & _ & H & _)|(_ & _ & _ & H & _)]);
    subst ss; rewrite H; clear H; split_and!.
  - exists 1%nat, confirmed. split; [by left |].
    unfold lifecycle. cbn [replicate app]. sublist_greedy.
  - intros i j Hi Hj. by_position Hi i; by_position Hj j; lia.
  - intros i s Hi [-> | ->]; by_position Hi i; reflexivity.
  - exists 1%nat, failed. split; [by right |].
    unfold lifecycle. cbn [replicate app]. sublist_greedy.
  - intros i j Hi Hj. by_position Hi i.
  - intros i s Hi [-> | ->]; by_position Hi i; reflexivity.
Qed.

(** C3 (amended). A run broadcasts exactly one limit_check event,
    whatever the number of evaluations its gate performs, which is at
    least one and at most [maxRetries]; the gate itself broadcasts
    nothing. *)
Theorem one_limit_check_event_per_run order w :
  let es := new_effects w (processLimitOrder random readyState order w).2 in
  length (filter (λ s, s = limit_check) (statuses es)) = 1%nat ∧
  (1 ≤ length (limitChecks es) ≤ maxRetries)%nat ∧
  statuses (gateOf random order w).2 = [].
Proof.
  intros es. subst es.
  destruct (gateRun_log (maxRetries - 1) (id order)
              (effectivePrice (routeAt random (draws w)))
              (limitPrice order) 1 (2 + draws w)) as (m & Hm & Hst & Hlen & _).
  destruct (run_cases order w) as (res & _ & Hlc & _ & Hcase).
  rewrite Hlc. unfold gateOf. rewrite Hlen.
  split_and!; [| unfold maxRetries in *; lia.. | exact Hst].
  destruct Hcase as [(_ & _ & _ & -> & _)|(_ & _ & _ & -> & _)]; reflexivity.
Qed.


(** *** Outcome fields *)

Lemma string_length_append (s1 s2 : string) :
  String.length (s1 ++ s2)%string = (String.length s1 + String.length s2)%nat.
Proof. induction s1 as [|c s1 IH]; simpl; [done | by rewrite IH]. Qed.

Lemma string_get_in_range (s : string) (n : nat) :
  (n < String.length s)%nat → ∃ c, String.get n s = Some c.
Proof.
  revert n. induction s as [|c s IH]; intros n Hn; simpl in *; [lia |].
  destruct n as [|n]; [by exists c |]. apply IH. lia.
Qed.

Lemma charAt_length (s : string) (i : Z) :
  (0 ≤ i < Z.of_nat (String.length s))%Z → String.length (charAt s i) = 1%nat.
Proof.
  intros [H0 H1]. unfold charAt.
  destruct (i <? 0)%Z eqn:E; [apply Z.ltb_lt in E; lia |].
  destruct (string_get_in_range s (Z.to_nat i)) as [c ->]; [lia | done].
Qed.

Lemma limitNotReachedMessage_nonempty bestPrice limit :
  limitNotReachedMessage bestPrice limit ≠ "".
Proof. unfold limitNotReachedMessage. simpl. discriminate. Qed.

(** The gate completes with a verdict, or with the [TypeError] of
    formatting an absent limit. *)
Lemma gateRun_completion fuel orderId p limit attempt n :
  ∃ b, (gateRun random fuel orderId p limit attempt n).1.1 = Normal b
       ∨ (gateRun random fuel orderId p limit attempt n).1.1 = Throw typeError_toFixed.
Proof.
  revert p attempt n. induction fuel as [|fuel IH]; intros p attempt n;
    cbn [gateRun];
    destruct (checkLimitCondition p limit);
    try (destruct limit; exists true; by (left + right));
    destruct (maxRetries <=? attempt)%nat;
    try (destruct limit; exists false; by (left + right));
    try (exists false; by left).
  specialize (IH (effectivePrice (routeAt random n)) (attempt + 1)%nat (2 + n)%nat).
  destruct (gateRun random fuel orderId _ limit (attempt + 1) (2 + n)) as [[r k] es].
  exact IH.
Qed.

Lemma failureMessage_nonempty fuel orderId p limit attempt n bestPrice :
  failureMessage (gateRun random fuel orderId p limit attempt n).1.1 bestPrice limit ≠ "".
Proof.
  destruct (gateRun_completion fuel orderId p limit attempt n) as [b [-> | ->]];
    unfold failureMessage.
  - destruct limit; [apply limitNotReachedMessage_nonempty | discriminate].
  - discriminate.
Qed.

Section InRange.

(** [Math.random()] returns a number in [0, 1). *)
Hypothesis random_in_range : ∀ n, (0 <= random n < 1)%Q.

Lemma hashAt_length k n hash :
  String.length (hashAt random k n hash) = (String.length hash + k)%nat.
Proof.
  revert n hash. induction k as [|k IH]; intros n hash; cbn [hashAt]; [lia |].
  rewrite IH, string_length_append, charAt_length; [lia |].
  destruct (random_in_range n) as [H0 H1].
  change (inject_Z (Z.of_nat (String.length chars))) with 62%Q.
  change (Z.of_nat (String.length chars)) with 62%Z. split.
  - change 0%Z with (Qfloor 0). apply Qfloor_resp_le. lra.
  - pose proof (Qfloor_le (random n * 62)) as Hf.
    rewrite Zlt_Qlt. change (inject_Z 62) with 62%Q. lra.
Qed.

Lemma swapAt_receipt n :
  String.length (s_txHash (swapAt random n)) = 88%nat ∧
  (0 < s_executedPrice (swapAt random n))%Q.
Proof.
  unfold swapAt. cbn [s_txHash s_executedPrice]. split.
  - by rewrite hashAt_length.
  - destruct (random_in_range (89 + n)) as [H0 _]. unfold basePrice. lra.
Qed.

(** C8. After a run the order's row is terminal and carries its outcome:
    a failed row has a non-empty failure reason; a confirmed row has the
    selected venue, a realized price above zero and a non-empty
    settlement identifier. *)
Theorem terminal_orders_carry_their_outcome order row w :
  orders w !! id order = Some row →
  ∃ row',
    orders (processLimitOrder random readyState order w).2 !! id order
    = Some row' ∧
    terminal (status row') ∧
    (status row' = failed →
     ∃ reason, errorReason row' = Some reason ∧ reason ≠ "") ∧
    (status row' = confirmed →
     ∃ venue p hash,
       dex row' = Some venue ∧
       executedPrice row' = Some p ∧ (0 < p)%Q ∧
       txHash row' = Some hash ∧ hash ≠ "").
Proof.
  intros Hrow.
  pose proof (failureMessage_nonempty 2 (id order)
                (effectivePrice (routeAt random (draws w))) (limitPrice order)
                1 (2 + draws w) (effectivePrice (routeAt random (draws w))))
    as Hmsg.
  destruct (gateRun random 2 (id order) (effectivePrice (routeAt random (draws w)))
              (limitPrice order) 1 (2 + draws w)) as [[g k] ges] eqn:G.
  cbn [fst] in Hmsg.
  assert (g = Normal true ∨ g ≠ Normal true) as [->|Hg]
    by (destruct g as [[|]|e]; [by left | by right..]).
  - destruct (run_confirmed order w k ges G) as (es & -> & _).
    cbn [snd]. rewrite orders_persisted. cbn [advance orders].
    rewrite lookup_alter_eq, Hrow. cbn [fmap option_fmap option_map].
    eexists. split; [reflexivity |]. cbn [apply_update status default].
    split; [by left |]. split; [discriminate |]. intros _.
    destruct (swapAt_receipt (2 + k + draws w)) as [Hlen Hpos].
    eexists _, _, _. split_and!; [reflexivity | reflexivity | exact Hpos
                                 | reflexivity |].
    intros E. rewrite E in Hlen. discriminate.
  - destruct (run_failed order w g k ges G Hg) as (es & -> & _).
    cbn [snd]. rewrite orders_persisted. cbn [advance orders].
    rewrite lookup_alter_eq, Hrow. cbn [fmap option_fmap option_map].
    eexists. split; [reflexivity |]. cbn [apply_update status default].
    split; [by right |]. split; [| discriminate]. intros _.
    eexists. split; [reflexivity | exact Hmsg].
Qed.

End InRange.

(** ** The venue router *)

Lemma js_lt_spec (a b : Q) : js_lt a b = true ↔ (a < b)%Q.
Proof.
  unfold js_lt. rewrite negb_true_iff, <- not_true_iff_false, Qle_bool_iff.
  split; [apply Qnot_le_lt | apply Qlt_not_le].
Qed.

Lemma selectQuote_raydium raydiumQuote meteoraQuote :
  js_lt (q_price raydiumQuote * (1 - q_fee raydiumQuote))
        (q_price meteoraQuote * (1 - q_fee meteoraQuote)) = true →
  selectQuote raydiumQuote meteoraQuote
  = {| selectedDex := RAYDIUM;
       price := q_price raydiumQuote;
       fee := q_fee raydiumQuote;
       effectivePrice := (q_price raydiumQuote * (1 - q_fee raydiumQuote))%Q |}.
Proof. intros H. unfold selectQuote. by rewrite H. Qed.

Lemma selectQuote_meteora raydiumQuote meteoraQuote :
  js_lt (q_price raydiumQuote * (1 - q_fee raydiumQuote))
        (q_price meteoraQuote * (1 - q_fee meteoraQuote)) = false →
  selectQuote raydiumQuote meteoraQuote
  = {| selectedDex := METEORA;
       price := q_price meteoraQuote;
       fee := q_fee meteoraQuote;
       effectivePrice := (q_price meteoraQuote * (1 - q_fee meteoraQuote))%Q |}.
Proof. intros H. unfold selectQuote. by rewrite H. Qed.

(** ** The queue *)

Lemma processor_run job order w :
  orders w !! j_orderId job = Some order →
  processor random readyState job w
  = match processLimitOrder random readyState order
            (incrementAttempts (id order) w).2 with
    | (Normal result, w1) =>
        if success result
        then (Normal {| jr_success := true;
                        jr_orderId := j_orderId job;
                        jr_executedPrice := r_executedPrice result;
                        jr_txHash := r_txHash result |}, w1)
        else (Throw (JsError (error_or_default (r_error result))), w1)
    | (Throw e, w1) => (Throw e, w1)
    end.
Proof.
  intros Horder. unfold processor. rewrite try_catch_run, bind_run.
  unfold getOrderById at 1, prisma_order_findUnique. rewrite Horder.
  cbv beta iota.
  rewrite bind_run. unfold incrementAttempts, prisma_order_update.
  cbv beta iota. rewrite bind_run. cbn [snd].
  destruct (processLimitOrder random readyState order _) as [[result|e] w1];
    [| reflexivity].
  destruct (success result); reflexivity.
Qed.

Lemma runJob_rec_retry opts remaining attemptsMade job w e w1 :
  processor random readyState job w = (Throw e, w1) →
  runJob_rec random readyState opts (S remaining) attemptsMade job w
  = runJob_rec random readyState opts remaining (S attemptsMade) job
      (add_effects
         [Backoff (2 ^ (S attemptsMade - 1) * jo_backoff_delay opts)] w1).
Proof. intros H. cbn [runJob_rec]. by rewrite H. Qed.

Lemma runJob_rec_give_up opts attemptsMade job w e w1 :
  processor random readyState job w = (Throw e, w1) →
  runJob_rec random readyState opts 0 attemptsMade job w
  = (JobFailed (error_message e), w1).
Proof. intros H. cbn [runJob_rec]. by rewrite H. Qed.

Lemma runJob_rec_completed opts remaining attemptsMade job w ret w1 :
  processor random readyState job w = (Normal ret, w1) →
  runJob_rec random readyState opts remaining attemptsMade job w
  = (JobCompleted ret, w1).
Proof. intros H. destruct remaining; cbn [runJob_rec]; by rewrite H. Qed.

(** C1 (amended). Every run that does not succeed, a run whose gate gave
    up included, makes the worker's processor throw.  The queue answers a
    throwing processor by running the whole order again: 1000 ms after
    the first failure and 2000 ms after the second; after the third the
    job has failed.  A run that succeeds completes the job. *)
Theorem every_failed_run_is_retried job order w :
  orders w !! j_orderId job = Some order →
  let w0 := (incrementAttempts (id order) w).2 in
  let run := processLimitOrder random readyState order w0 in
  ∃ res,
    run.1 = Normal res ∧
    ((gateOf random order w0).1.1 ≠ Normal true → success res = false) ∧
    (success res = false →
     ∃ reason,
       processor random readyState job w = (Throw (JsError reason), run.2) ∧
       runJob random readyState addOrderToQueue_options job w
       = runJob_rec random readyState addOrderToQueue_options 1 1 job
           (add_effects [Backoff 1000] run.2)) ∧
    (∀ w' e w1,
       processor random readyState job w' = (Throw e, w1) →
       runJob_rec random readyState addOrderToQueue_options 1 1 job w'
       = runJob_rec random readyState addOrderToQueue_options 0 2 job
           (add_effects [Backoff 2000] w1) ∧
       runJob_rec random readyState addOrderToQueue_options 0 2 job w'
       = (JobFailed (error_message e), w1)) ∧
    (success res = true →
     ∃ ret,
       runJob random readyState addOrderToQueue_options job w
       = (JobCompleted ret, run.2)).
Proof.
  intros Horder w0 run.
  pose proof (processor_run job order w Horder) as Hp. fold w0 run in Hp.
  destruct (run_cases order w0) as (res & Hres & _ & _ & Hcase). fold run in Hres.
  exists res. split; [done |].
  destruct run as [c w1] eqn:Hrun. cbn [fst snd] in *. subst c.
  split_and!.
  - intros Hg. by destruct Hcase as [(Hg' & _)|(_ & Hs & _)].
  - intros Hs. rewrite Hs in Hp. eexists. split; [exact Hp |].
    unfold runJob. cbn [addOrderToQueue_options jo_attempts Nat.sub].
    by rewrite (runJob_rec_retry _ _ _ _ _ _ _ Hp).
  - intros w' e w2 Hthrow. split.
    + by rewrite (runJob_rec_retry _ _ _ _ _ _ _ Hthrow).
    + by rewrite (runJob_rec_give_up _ _ _ _ _ _ Hthrow).
  - intros Hs. rewrite Hs in Hp. eexists.
    unfold runJob. by rewrite (runJob_rec_completed _ _ _ _ _ _ _ Hp).
Qed.

End PipelineFacts.

(** ** The venue router in double precision *)

Lemma SFcompare_antisym (x y : spec_float) :
  SFcompare y x = option_map CompOpp (SFcompare x y).
Proof.
  destruct x as [sx|sx| |sx mx ex], y as [sy|sy| |sy my ey];
    try destruct sx; try destruct sy; try reflexivity;
    cbn [SFcompare option_map]; f_equal;
    rewrite (Z.compare_antisym ex ey);
    destruct (ex ?= ey)%Z; cbn [CompOpp]; try reflexivity.
  - by rewrite (Pos.compare_cont_antisym mx my Eq).
  - by rewrite (Pos.compare_cont_antisym mx my Eq).
Qed.

(** [<] on doubles is asymmetric, and false of two equal doubles. *)
Lemma float_ltb_asym (x y : float) :
  (y <? x)%float = true → (x <? y)%float = false.
Proof.
  rewrite !ltb_spec. unfold SFltb. rewrite (SFcompare_antisym (Prim2SF y)).
  by destruct (SFcompare (Prim2SF y) (Prim2SF x)) as [[| |]|].
Qed.

Lemma float_eqb_not_ltb (x y : float) :
  (x =? y)%float = true → (x <? y)%float = false.
Proof.
  rewrite FloatAxioms.eqb_spec, ltb_spec. unfold SFeqb, SFltb.
  by destruct (SFcompare (Prim2SF x) (Prim2SF y)) as [[| |]|].
Qed.

Lemma selectQuote64_raydium raydiumQuote meteoraQuote :
  (Float64.q_price raydiumQuote * (1 - Float64.q_fee raydiumQuote)
   <? Float64.q_price meteoraQuote * (1 - Float64.q_fee meteoraQuote))%float
  = true →
  Float64.selectQuote raydiumQuote meteoraQuote
  = {| Float64.selectedDex := RAYDIUM;
       Float64.price := Float64.q_price raydiumQuote;
       Float64.fee := Float64.q_fee raydiumQuote;
       Float64.effectivePrice :=
         (Float64.q_price raydiumQuote
          * (1 - Float64.q_fee raydiumQuote))%float |}.
Proof. intros H. unfold Float64.selectQuote. by rewrite H. Qed.

Lemma selectQuote64_meteora raydiumQuote meteoraQuote :
  (Float64.q_price raydiumQuote * (1 - Float64.q_fee raydiumQuote)
   <? Float64.q_price meteoraQuote * (1 - Float64.q_fee meteoraQuote))%float
  = false →
  Float64.selectQuote raydiumQuote meteoraQuote
  = {| Float64.selectedDex := METEORA;
       Float64.price := Float64.q_price meteoraQuote;
       Float64.fee := Float64.q_fee meteoraQuote;
       Float64.effectivePrice :=
         (Float64.q_price meteoraQuote
          * (1 - Float64.q_fee meteoraQuote))%float |}.
Proof. intros H. unfold Float64.selectQuote. by rewrite H. Qed.

Lemma mathRandom64_run random w :
  Float64.mathRandom random w = (Normal (random (draws w)), advance 1 [] w).
Proof.
  unfold Float64.mathRandom, set_draws, advance. do 2 f_equal.
  by rewrite app_nil_r.
Qed.

Lemma getRaydiumQuote64_run random a b c w :
  Float64.getRaydiumQuote random a b c w
  = (Normal (Float64.raydiumAt (random (draws w))),
     advance 1 [NetworkDelay 200] w).
Proof.
  unfold Float64.getRaydiumQuote, simulateNetworkDelay.
  rewrite bind_run, perform_run. cbv beta iota.
  rewrite bind_run, mathRandom64_run. cbv beta iota.
  rewrite advance_advance. reflexivity.
Qed.

Lemma getMeteorQuote64_run random a b c w :
  Float64.getMeteorQuote random a b c w
  = (Normal (Float64.meteoraAt (random (draws w))),
     advance 1 [NetworkDelay 200] w).
Proof.
  unfold Float64.getMeteorQuote, simulateNetworkDelay.
  rewrite bind_run, perform_run. cbv beta iota.
  rewrite bind_run, mathRandom64_run. cbv beta iota.
  rewrite advance_advance. reflexivity.
Qed.

Lemma routeOrder64_run random a b c w :
  Float64.routeOrder random a b c w
  = (Normal (Float64.selectQuote (Float64.raydiumAt (random (draws w)))
               (Float64.meteoraAt (random (S (draws w))))),
     advance 2 [NetworkDelay 200; NetworkDelay 200] w).
Proof.
  unfold Float64.routeOrder.
  rewrite bind_run, getRaydiumQuote64_run. cbv beta iota.
  rewrite bind_run, getMeteorQuote64_run. cbv beta iota.
  rewrite !advance_advance. reflexivity.
Qed.

(** C6. [routeOrder] returns [selectQuote] of the two quotes it fetched,
    the Raydium quote from the first draw and the Meteora quote from the
    second.  For every pair of quotes, in the arithmetic of the source:
    the effective price of a quote is the double [price * (1 - fee)]; the
    venue whose effective price is strictly lower is selected; when the
    two are equal the selection is METEORA, every time; and the decision
    carries the selected quote's price and fee and, as effective price,
    exactly the double [price * (1 - fee)]. *)
Theorem routeOrder_selects_lower_effective_price
    (random : nat → float) (a b : string) (c : float) (w : World)
    (raydiumQuote meteoraQuote : Float64.DexQuote) :
  let raydiumEffective :=
    (Float64.q_price raydiumQuote * (1 - Float64.q_fee raydiumQuote))%float in
  let meteoraEffective :=
    (Float64.q_price meteoraQuote * (1 - Float64.q_fee meteoraQuote))%float in
  let decision := Float64.selectQuote raydiumQuote meteoraQuote in
  (Float64.routeOrder random a b c w).1
  = Normal (Float64.selectQuote (Float64.raydiumAt (random (draws w)))
              (Float64.meteoraAt (random (S (draws w))))) ∧
  ((raydiumEffective <? meteoraEffective)%float = true →
   Float64.selectedDex decision = RAYDIUM ∧
   Float64.price decision = Float64.q_price raydiumQuote ∧
   Float64.fee decision = Float64.q_fee raydiumQuote) ∧
  ((meteoraEffective <? raydiumEffective)%float = true →
   Float64.selectedDex decision = METEORA ∧
   Float64.price decision = Float64.q_price meteoraQuote ∧
   Float64.fee decision = Float64.q_fee meteoraQuote) ∧
  ((raydiumEffective =? meteoraEffective)%float = true →
   Float64.selectedDex decision = METEORA ∧
   Float64.price decision = Float64.q_price meteoraQuote ∧
   Float64.fee decision = Float64.q_fee meteoraQuote) ∧
  Float64.effectivePrice decision
  = (Float64.price decision * (1 - Float64.fee decision))%float.
Proof.
  intros raydiumEffective meteoraEffective decision. split_and!.
  - by rewrite routeOrder64_run.
  - intros Hlt. subst decision.
    by rewrite (selectQuote64_raydium _ _ Hlt).
  - intros Hlt. subst decision.
    rewrite selectQuote64_meteora; [done |]. by apply float_ltb_asym.
  - intros Heq. subst decision.
    rewrite selectQuote64_meteora; [done |]. by apply float_eqb_not_ltb.
  - subst decision. unfold Float64.selectQuote.
    destruct (_ <? _)%float; reflexivity.
Qed.

(** ** Further properties of every run *)

(** The router calls of a run: the order's own, then one call for the
    fixed pair and amount per retry. *)
Lemma retries_route_the_fixed_pair random readyState order w :
  let es := new_effects w (processLimitOrder random readyState order w).2 in
  ∃ retries,
    length (limitChecks es) = S retries ∧
    routeCalls es
    = (tokenIn order, tokenOut order, amountIn order)
      :: replicate retries ("SOL", "USDC", 1.5%Q).
Proof.
  intros es. subst es.
  destruct (gateRun_log random (maxRetries - 1) (id order)
              (effectivePrice (routeAt random (draws w)))
              (limitPrice order) 1 (2 + draws w))
    as (m & _ & _ & Hlen & _ & _ & Hrc).
  destruct (run_cases random readyState order w) as (res & _ & Hlc & Hr & _).
  exists m. unfold gateOf in *. by rewrite Hlc, Hr, Hlen, Hrc.
Qed.

(** A run whose gate gives up has evaluated the limit [maxRetries] times,
    and the reason it reports is built from the price of the first
    routing decision. *)
Lemma exhausted_gate_reports_first_price random readyState order w res :
  (processLimitOrder random readyState order w).1 = Normal res →
  success res = false →
  length (limitChecks
            (new_effects w (processLimitOrder random readyState order w).2))
  = maxRetries ∧
  r_error res
  = Some (failureMessage (gateOf random order w).1.1
            (effectivePrice (routeAt random (draws w))) (limitPrice order)).
Proof.
  intros Hres Hs.
  destruct (run_cases random readyState order w) as (res' & Hres' & Hlc & _ & Hcase).
  rewrite Hres in Hres'. injection Hres' as <-.
  destruct Hcase as [(_ & Ht & _)|(Hg & _ & He & _)]; [congruence |].
  split; [| done]. rewrite Hlc. unfold gateOf in *.
  rewrite gateRun_exhausted; [done | unfold maxRetries; lia.. | done].
Qed.

(** ** Sample runs *)

Lemma sampleRandom_in_range : ∀ n, (0 <= sampleRandom n < 1)%Q.
Proof.
  intros n. do 4 (destruct n as [|n]; [split; [discriminate | reflexivity] |]).
  split; [discriminate | reflexivity].
Qed.

(** The limit 100 is below every quote: the gate gives up. *)

(** C1 (counterexample). The job of an order whose gate gives up runs the
    state machine three times, 1000 ms and 2000 ms apart, and every run
    fails for the same business reason. *)
Lemma limit_not_reached_is_retried :
  let out :=
    runJob sampleRandom allOpen addOrderToQueue_options (sampleJob 100)
      (sampleWorld 100) in
  statuses (effects out.2)
  = [routing; limit_check; failed; routing; limit_check; failed;
     routing; limit_check; failed] ∧
  backoffs (effects out.2) = [1000; 2000]%nat ∧
  failureReasons (effects out.2)
  = ["Limit price not reached after 3 attempts. Best price: $181.89, Limit: $100.00";
     "Limit price not reached after 3 attempts. Best price: $187.90, Limit: $100.00";
     "Limit price not reached after 3 attempts. Best price: $187.90, Limit: $100.00"] ∧
  attempts <$> (orders out.2 !! "o1") = Some 3%nat.
Proof. vm_compute. repeat split. Qed.

Lemma every_failed_run_is_retried_witness :
  let job := sampleJob 100 in
  let opts := addOrderToQueue_options in
  let w0 := (incrementAttempts "o1" (sampleWorld 100)).2 in
  let run := processLimitOrder sampleRandom allOpen (sampleOrder 100) w0 in
  ∃ res,
    run.1 = Normal res ∧
    ((gateOf sampleRandom (sampleOrder 100) w0).1.1 ≠ Normal true →
     success res = false) ∧
    (success res = false →
     ∃ reason,
       processor sampleRandom allOpen job (sampleWorld 100)
       = (Throw (JsError reason), run.2) ∧
       runJob sampleRandom allOpen opts job (sampleWorld 100)
       = runJob_rec sampleRandom allOpen opts 1 1 job
           (add_effects [Backoff 1000] run.2)) ∧
    (∀ w' e w1,
       processor sampleRandom allOpen job w' = (Throw e, w1) →
       runJob_rec sampleRandom allOpen opts 1 1 job w'
       = runJob_rec sampleRandom allOpen opts 0 2 job
           (add_effects [Backoff 2000] w1) ∧
       runJob_rec sampleRandom allOpen opts 0 2 job w'
       = (JobFailed (error_message e), w1)) ∧
    (success res = true →
     ∃ ret,
       runJob sampleRandom allOpen opts job (sampleWorld 100)
       = (JobCompleted ret, run.2)).
Proof.
  apply (every_failed_run_is_retried sampleRandom allOpen (sampleJob 100)
           (sampleOrder 100) (sampleWorld 100)).
  reflexivity.
Defined.

(** C2. The order trades ETH for USDT, 10 units; both retries of its run
    call the router for SOL/USDC and 1.5 units. *)
Theorem retry_routes_fixed_pair_and_amount :
  routeCalls
    (effects
       (processLimitOrder sampleRandom allOpen (sampleOrder 100)
          (sampleWorld 100)).2)
  = [("ETH", "USDT", 10%Q); ("SOL", "USDC", 1.5%Q); ("SOL", "USDC", 1.5%Q)].
Proof. vm_compute. reflexivity. Qed.

(** C3 (counterexample). Three evaluations of the limit, one limit_check
    event broadcast, one delivered to the subscriber. *)
Lemma three_evaluations_one_limit_check_event :
  let es :=
    effects
      (processLimitOrder sampleRandom allOpen (sampleOrder 100)
         (sampleWorld 100)).2 in
  length (limitChecks es) = 3%nat ∧
  length (filter (λ s, s = limit_check) (statuses es)) = 1%nat ∧
  length (received 7%nat limit_check es) = 1%nat.
Proof. vm_compute. repeat split. Qed.

(** C4. The gate of this run evaluated the prices 181.89, 180.50 and
    187.90, in this order, and its log line of the failure carries the
    last of them; the failure the run reports carries 181.89, the first,
    which is neither the last nor the lowest. *)
Theorem failure_reports_first_price :
  let run :=
    processLimitOrder sampleRandom allOpen (sampleOrder 100) (sampleWorld 100) in
  toFixed2 <$> limitChecks (effects run.2) = ["181.89"; "180.50"; "187.90"] ∧
  last (consoleLines (effects run.2))
  = Some "[LIMIT CHECK] Order o1 failed after 3 attempts. Best: $187.90, Limit: $100.00" ∧
  run.1
  = Normal
      {| success := false; r_executedPrice := None; r_txHash := None;
         r_error :=
           Some "Limit price not reached after 3 attempts. Best price: $181.89, Limit: $100.00" |}.
Proof. vm_compute. split_and!; reflexivity. Qed.

(** A strictly lower Raydium price, a strictly lower Meteora price and a
    tie; then the routing decision at two draws where the effective
    prices in double precision are 182.36057296790827 for Raydium and
    182.36057296790824 for Meteora. *)
Lemma routeOrder_selects_lower_effective_price_witness :
  Float64.selectedDex
    (Float64.selectQuote
       {| Float64.q_price := 100; Float64.q_fee := 0.003;
          Float64.q_dex := RAYDIUM |}
       {| Float64.q_price := 100; Float64.q_fee := 0.002;
          Float64.q_dex := METEORA |})
  = RAYDIUM ∧
  Float64.selectedDex
    (Float64.selectQuote
       {| Float64.q_price := 101; Float64.q_fee := 0.003;
          Float64.q_dex := RAYDIUM |}
       {| Float64.q_price := 100; Float64.q_fee := 0.002;
          Float64.q_dex := METEORA |})
  = METEORA ∧
  Float64.selectedDex
    (Float64.selectQuote
       {| Float64.q_price := 100; Float64.q_fee := 0.5;
          Float64.q_dex := RAYDIUM |}
       {| Float64.q_price := 50; Float64.q_fee := 0;
          Float64.q_dex := METEORA |})
  = METEORA ∧
  Float64.selectedDex
    (Float64.selectQuote (Float64.raydiumAt (closeRandom 0))
       (Float64.meteoraAt (closeRandom 1)))
  = METEORA.
Proof.
  split_and!.
  - pose proof (routeOrder_selects_lower_effective_price closeRandom
                  "ETH" "USDT" 10 (sampleWorld 100)
                  {| Float64.q_price := 100; Float64.q_fee := 0.003;
                     Float64.q_dex := RAYDIUM |}
                  {| Float64.q_price := 100; Float64.q_fee := 0.002;
                     Float64.q_dex := METEORA |}) as H.
    cbv zeta in H. destruct H as (_ & H & _). apply H. reflexivity.
  - pose proof (routeOrder_selects_lower_effective_price closeRandom
                  "ETH" "USDT" 10 (sampleWorld 100)
                  {| Float64.q_price := 101; Float64.q_fee := 0.003;
                     Float64.q_dex := RAYDIUM |}
                  {| Float64.q_price := 100; Float64.q_fee := 0.002;
                     Float64.q_dex := METEORA |}) as H.
    cbv zeta in H. destruct H as (_ & _ & H & _). apply H. reflexivity.
  - pose proof (routeOrder_selects_lower_effective_price closeRandom
                  "ETH" "USDT" 10 (sampleWorld 100)
                  {| Float64.q_price := 100; Float64.q_fee := 0.5;
                     Float64.q_dex := RAYDIUM |}
                  {| Float64.q_price := 50; Float64.q_fee := 0;
                     Float64.q_dex := METEORA |}) as H.
    cbv zeta in H. destruct H as (_ & _ & _ & H & _). apply H. reflexivity.
  - pose proof (routeOrder_selects_lower_effective_price closeRandom
                  "ETH" "USDT" 10 (sampleWorld 100)
                  (Float64.raydiumAt (closeRandom 0))
                  (Float64.meteoraAt (closeRandom 1))) as H.
    cbv zeta in H. destruct H as (_ & _ & H & _). apply H. reflexivity.
Defined.


(** The limit 1000 is above every quote: the order is confirmed. *)
Lemma terminal_orders_carry_their_outcome_witness :
  ∃ row',
    orders
      (processLimitOrder sampleRandom allOpen (sampleOrder 1000)
         (sampleWorld 1000)).2 !! "o1"
    = Some row' ∧
    terminal (status row') ∧
    (status row' = failed →
     ∃ reason, errorReason row' = Some reason ∧ reason ≠ "") ∧
    (status row' = confirmed →
     ∃ venue p hash,
       dex row' = Some venue ∧
       executedPrice row' = Some p ∧ (0 < p)%Q ∧
       txHash row' = Some hash ∧ hash ≠ "").
Proof.
  apply (terminal_orders_carry_their_outcome sampleRandom allOpen
           sampleRandom_in_range (sampleOrder 1000) (sampleOrder 1000)
           (sampleWorld 1000)).
  reflexivity.
Defined.

Lemma registry_holds_no_empty_set_witness :
  [7%nat] ≠ [] ∧
  ∀ socket,
    (∀ s, s ∈ [7%nat] → s = socket) →
    WsManager.unregister "o1" socket
      (WsManager.run [WsManager.Register "o1" 7%nat]) !! "o1" = None ∧
    WsManager.getConnectionCount "o1"
      (WsManager.unregister "o1" socket
         (WsManager.run [WsManager.Register "o1" 7%nat])) = 0%nat.
Proof.
  apply (WsFacts.registry_holds_no_empty_set [WsManager.Register "o1" 7%nat]
           "o1" [7%nat]).
  reflexivity.
Defined.

(** * Further properties *)

(** ** The registry: round trips, counts, delivery *)

Module WsMore.
Import WsManager WsFacts.

Lemma set_add_fresh (socket : WebSocket) sockets :
  socket ∉ sockets → set_add socket sockets = sockets ++ [socket].
Proof. intros H. unfold set_add. by case_decide. Qed.

Lemma set_add_member (socket : WebSocket) sockets :
  socket ∈ sockets → set_add socket sockets = sockets.
Proof. intros H. unfold set_add. by case_decide. Qed.

Lemma set_delete_fresh (socket : WebSocket) sockets :
  socket ∉ sockets → set_delete socket sockets = sockets.
Proof.
  intros H. unfold set_delete.
  induction sockets as [|x l IH]; [done |].
  apply not_elem_of_cons in H as [Hne Hl].
  rewrite filter_cons_True by congruence. by rewrite IH.
Qed.

Lemma set_delete_length (socket : WebSocket) sockets :
  NoDup sockets → socket ∈ sockets →
  S (length (set_delete socket sockets)) = length sockets.
Proof.
  unfold set_delete. induction 1 as [|x l Hx ND IH]; intros Hin.
  - by apply elem_of_nil in Hin.
  - destruct (decide (x = socket)) as [->|Hne].
    + rewrite filter_cons_False by (intros H; by apply H).
      fold (set_delete socket l). by rewrite set_delete_fresh.
    + rewrite filter_cons_True by done. cbn [length]. f_equal. apply IH.
      apply elem_of_cons in Hin as [->|Hin]; [done | done].
Qed.

Lemma subscribers_register orderId socket connections :
  subscribers orderId (register orderId socket connections)
  = set_add socket (subscribers orderId connections).
Proof. unfold subscribers. by rewrite register_lookup. Qed.

Lemma subscribers_unregister orderId socket connections :
  subscribers orderId (unregister orderId socket connections)
  = set_delete socket (subscribers orderId connections).
Proof.
  unfold subscribers. rewrite unregister_lookup.
  destruct (connections !! orderId) as [sockets|]; [| done].
  case_decide as E; simpl; by rewrite ?E.
Qed.

Lemma subscribers_NoDup orderId connections :
  well_formed connections → NoDup (subscribers orderId connections).
Proof.
  intros WF. unfold subscribers.
  destruct (connections !! orderId) as [sockets|] eqn:E; simpl.
  - by apply (WF orderId).
  - apply NoDup_nil_2.
Qed.

Lemma getConnectionCount_subscribers orderId connections :
  getConnectionCount orderId connections
  = length (subscribers orderId connections).
Proof.
  unfold getConnectionCount, subscribers.
  by destruct (connections !! orderId).
Qed.

Lemma emit_subscribers readyState orderId message connections :
  emit readyState orderId message connections
  = (λ s, (s, message))
    <$> filter (λ s, readyState s = OPEN) (subscribers orderId connections).
Proof.
  unfold emit, subscribers. by destruct (connections !! orderId).
Qed.

Lemma deliveries_member (socket : WebSocket) (message : WebSocketMessage)
    (sockets : list WebSocket) :
  NoDup sockets → socket ∈ sockets →
  deliveries socket ((λ s, (s, message)) <$> sockets) = 1%nat.
Proof.
  induction 1 as [|x l Hx ND IH]; intros Hin.
  - by apply elem_of_nil in Hin.
  - unfold deliveries in *. rewrite fmap_cons.
    destruct (decide (x = socket)) as [->|Hne].
    + rewrite filter_cons_True by done. cbn [length]. f_equal.
      by apply (deliveries_absent socket message l).
    + rewrite filter_cons_False by (simpl; congruence).
      apply IH. by apply elem_of_cons in Hin as [->|Hin].
Qed.

(** X1. Subscribing a socket that is not subscribed to the order and then
    unsubscribing it gives back the registry as it was, entry for entry:
    the order's entry is removed again if the socket was its only one. *)
Theorem unregister_undoes_register (ops : list Op) (orderId : string)
    (socket : WebSocket) :
  socket ∉ subscribers orderId (run ops) →
  unregister orderId socket (register orderId socket (run ops)) = run ops.
Proof.
  intros Hfresh. apply map_eq. intros k.
  destruct (decide (orderId = k)) as [<-|Hne].
  - rewrite unregister_lookup, register_lookup.
    fold (subscribers orderId (run ops)).
    rewrite set_add_fresh by done.
    unfold set_delete. rewrite filter_app.
    fold (set_delete socket (subscribers orderId (run ops))).
    rewrite set_delete_fresh by done.
    rewrite filter_cons_False by (intros H; by apply H).
    rewrite filter_nil, app_nil_r. unfold subscribers.
    destruct (run ops !! orderId) as [sockets|] eqn:E; simpl.
    + case_decide as D; [| done].
      by destruct (well_formed_run ops orderId sockets E).
    + done.
  - by rewrite unregister_lookup_ne, register_lookup_ne.
Qed.

(** X2. One [emit] sends its message exactly once to every socket that is
    subscribed to that order and open, and to no other socket. *)
Theorem emit_reaches_open_subscribers (ops : list Op)
    (readyState : WebSocket → nat) (orderId : string)
    (message : WebSocketMessage) (socket : WebSocket) :
  deliveries socket (emit readyState orderId message (run ops))
  = if decide (socket ∈ subscribers orderId (run ops)
               ∧ readyState socket = OPEN)
    then 1%nat else 0%nat.
Proof.
  rewrite emit_subscribers.
  pose proof (subscribers_NoDup orderId (run ops) (well_formed_run ops)) as ND.
  case_decide as H.
  - apply deliveries_member; [by apply NoDup_filter |].
    destruct H as [Hin Hopen]. by apply list_elem_of_filter.
  - apply deliveries_absent. intros Hin. apply H.
    apply list_elem_of_filter in Hin as [? ?]. by split.
Qed.

(** X3. [getConnectionCount] counts the distinct sockets subscribed to the
    order: [register] raises it by one for a new socket and leaves it for
    a subscribed one, [unregister] lowers it by one for a subscribed
    socket and leaves it otherwise. *)
Theorem getConnectionCount_follows_subscriptions (ops : list Op)
    (orderId : string) (socket : WebSocket) :
  let count := getConnectionCount orderId (run ops) in
  getConnectionCount orderId (register orderId socket (run ops))
  = (if decide (socket ∈ subscribers orderId (run ops))
     then count else S count) ∧
  getConnectionCount orderId (unregister orderId socket (run ops))
  = (if decide (socket ∈ subscribers orderId (run ops))
     then count - 1 else count)%nat.
Proof.
  intros count. subst count.
  rewrite !getConnectionCount_subscribers, subscribers_register,
    subscribers_unregister.
  pose proof (subscribers_NoDup orderId (run ops) (well_formed_run ops)) as ND.
  case_decide as H; split.
  - by rewrite set_add_member.
  - pose proof (set_delete_length socket _ ND H). lia.
  - rewrite set_add_fresh, length_app by done. simpl. lia.
  - by rewrite set_delete_fresh.
Qed.

(** X4. A closed socket stays subscribed until it is unregistered: an
    [emit] sends at most as many messages as [getConnectionCount] reports,
    and exactly as many when every subscriber of the order is open. *)
Theorem emit_sends_at_most_the_count (readyState : WebSocket → nat)
    (orderId : string) (message : WebSocketMessage)
    (connections : gmap string (list WebSocket)) :
  (length (emit readyState orderId message connections)
   ≤ getConnectionCount orderId connections)%nat ∧
  ((∀ s, s ∈ subscribers orderId connections → readyState s = OPEN) →
   length (emit readyState orderId message connections)
   = getConnectionCount orderId connections).
Proof.
  rewrite emit_subscribers, getConnectionCount_subscribers, length_fmap.
  split; [apply length_filter |].
  generalize (subscribers orderId connections). intros l Hopen.
  induction l as [|x l IH]; [done |].
  rewrite filter_cons_True by (apply Hopen; by left).
  cbn [length]. f_equal. apply IH. intros s Hs. apply Hopen. by right.
Qed.

(** X5. Subscriptions of different orders do not interfere: [register]
    and [unregister] for one order leave the subscribers, the count and
    the sends of every other order as they were. *)
Theorem other_orders_are_untouched (readyState : WebSocket → nat)
    (orderId other : string) (socket : WebSocket) (message : WebSocketMessage)
    (connections : gmap string (list WebSocket)) :
  orderId ≠ other →
  let after_register := register orderId socket connections in
  let after_unregister := unregister orderId socket connections in
  after_register !! other = connections !! other ∧
  after_unregister !! other = connections !! other ∧
  getConnectionCount other after_register
  = getConnectionCount other connections ∧
  getConnectionCount other after_unregister
  = getConnectionCount other connections ∧
  emit readyState other message after_register
  = emit readyState other message connections ∧
  emit readyState other message after_unregister
  = emit readyState other message connections.
Proof.
  intros Hne after_register after_unregister.
  assert (after_register !! other = connections !! other) as Hr
    by by apply register_lookup_ne.
  assert (after_unregister !! other = connections !! other) as Hu
    by by apply unregister_lookup_ne.
  unfold getConnectionCount, emit. by rewrite Hr, Hu.
Qed.

(** X6. Subscribers are served in the order they subscribed: after
    [register] of a socket that was not subscribed, an [emit] makes the
    sends it made before, in the same order, and then the send to the new
    socket if it is open. *)
Theorem new_subscriber_is_served_last (readyState : WebSocket → nat)
    (orderId : string) (socket : WebSocket) (message : WebSocketMessage)
    (connections : gmap string (list WebSocket)) :
  socket ∉ subscribers orderId connections →
  emit readyState orderId message (register orderId socket connections)
  = emit readyState orderId message connections
    ++ (if decide (readyState socket = OPEN) then [(socket, message)] else []).
Proof.
  intros Hfresh.
  rewrite !emit_subscribers, subscribers_register, set_add_fresh by done.
  rewrite filter_app, fmap_app. f_equal.
  case_decide as H.
  - by rewrite filter_cons_True.
  - by rewrite filter_cons_False.
Qed.

End WsMore.

(** ** The whole log of a run *)

Lemma draws_persisted orderId st data w :
  draws (persisted orderId st data w) = draws w.
Proof. unfold persisted, updateOrderStatus. by destruct data. Qed.

Lemma connections_persisted orderId st data w :
  connections (persisted orderId st data w) = connections w.
Proof. unfold persisted, updateOrderStatus. by destruct data. Qed.

Lemma history_persisted orderId st d w :
  history (persisted orderId st (Some d) w)
  = history w
    ++ [{| h_orderId := orderId;
           h_previousStatus :=
             status <$> (alter (apply_update st (Some d)) orderId (orders w)
                         !! orderId);
           h_newStatus := st;
           h_dex := u_dex d;
           h_price := u_executedPrice d |}].
Proof. reflexivity. Qed.

Lemma storeUpdates_app es1 es2 :
  storeUpdates (es1 ++ es2) = storeUpdates es1 ++ storeUpdates es2.
Proof. apply omap_app. Qed.

Lemma broadcasts_app es1 es2 :
  broadcasts (es1 ++ es2) = broadcasts es1 ++ broadcasts es2.
Proof. apply omap_app. Qed.

Lemma delivered_app socket es1 es2 :
  delivered socket (es1 ++ es2) = delivered socket es1 ++ delivered socket es2.
Proof. apply omap_app. Qed.

Lemma swapCalls_app es1 es2 :
  swapCalls (es1 ++ es2) = swapCalls es1 ++ swapCalls es2.
Proof. apply omap_app. Qed.

Lemma backoffs_app es1 es2 : backoffs (es1 ++ es2) = backoffs es1 ++ backoffs es2.
Proof. apply omap_app. Qed.

Lemma statuses_broadcasts es : statuses es = m_status <$> broadcasts es.
Proof.
  unfold statuses, broadcasts.
  induction es as [|e es IH]; [done |].
  destruct e; cbn [omap list_omap]; rewrite ?fmap_cons, IH; reflexivity.
Qed.

Lemma storeUpdates_broadcastEffects readyState connections message :
  storeUpdates (broadcastEffects readyState connections message) = [].
Proof.
  unfold storeUpdates, broadcastEffects. cbn [omap list_omap].
  by apply omap_sends.
Qed.

Lemma swapCalls_broadcastEffects readyState connections message :
  swapCalls (broadcastEffects readyState connections message) = [].
Proof.
  unfold swapCalls, broadcastEffects. cbn [omap list_omap].
  by apply omap_sends.
Qed.

Lemma backoffs_broadcastEffects readyState connections message :
  backoffs (broadcastEffects readyState connections message) = [].
Proof.
  unfold backoffs, broadcastEffects. cbn [omap list_omap].
  by apply omap_sends.
Qed.

Lemma broadcasts_broadcastEffects readyState connections message :
  broadcasts (broadcastEffects readyState connections message) = [message].
Proof.
  unfold broadcasts, broadcastEffects. cbn [omap list_omap]. f_equal.
  by apply omap_sends.
Qed.



#[global] Hint Rewrite storeUpdates_app broadcasts_app delivered_app
  swapCalls_app backoffs_app storeUpdates_broadcastEffects
  swapCalls_broadcastEffects backoffs_broadcastEffects
  broadcasts_broadcastEffects : log.

(** X7. [updateOrderStatus] reads the order back after it has updated
    it: the row then has the new status, and the history row, which is
    written only when [data] is given, records the new status as the
    previous one too; the status the order had before is not recorded. *)
Theorem history_records_the_new_status_as_previous orderId newStatus data row w :
  orders w !! orderId = Some row →
  let w' := (updateOrderStatus orderId newStatus data w).2 in
  (∃ row', (getOrderById orderId w').1 = Normal (Some row')
           ∧ status row' = newStatus) ∧
  history w'
  = history w
    ++ match data with
       | Some d =>
           [{| h_orderId := orderId;
               h_previousStatus := Some newStatus;
               h_newStatus := newStatus;
               h_dex := u_dex d;
               h_price := u_executedPrice d |}]
       | None => []
       end.
Proof.
  intros Hrow w'. subst w'. fold (persisted orderId newStatus data w).
  unfold getOrderById, prisma_order_findUnique. cbn [fst].
  rewrite orders_persisted, lookup_alter_eq, Hrow.
  split; [by eexists |].
  destruct data as [d|].
  - rewrite history_persisted, lookup_alter_eq, Hrow. done.
  - cbn. by rewrite app_nil_r.
Qed.

Section RunFacts.

Variable random : nat → Q.
Variable readyState : WsManager.WebSocket → nat.

Ltac step_with lem := rewrite bind_run, lem; cbv beta iota.

Ltac closed_numeral n :=
  lazymatch n with
  | O => idtac
  | S ?m => closed_numeral m
  end.

Ltac at_state w :=
  rewrite ?advance_advance;
  repeat match goal with
         | |- context [draws (advance ?k ?es w)] =>
             tryif (let n := eval cbv in k in closed_numeral n)
             then (let n := eval cbv in k in
                   lazymatch n with
                   | O => change (draws (advance k es w)) with (draws w)
                   | _ => change (draws (advance k es w)) with (n + draws w)%nat
                   end)
             else change (draws (advance k es w)) with (k + draws w)%nat
         | |- context [connections (advance ?k ?es w)] =>
             change (connections (advance k es w)) with (connections w)
         end.

Ltac close_log w :=
  at_state w;
  unfold logToGate, logAfterGate, routingMessage, limitCheckMessage,
    buildingMessage, submittedMessage, confirmedMessage, failedMessage,
    statusMessage, confirmedUpdate, failedUpdate, failureMessage;
  cbn [error_message]; cbv zeta;
  try match goal with H : limitPrice _ = _ |- _ => rewrite ?H end;
  do 2 f_equal; unfold advance; f_equal;
  [lia | rewrite <- ?app_assoc; reflexivity].

(** The two runs of [run_failed] and [run_confirmed], with the log spelled
    out. *)
Lemma run_failed_log order w g k ges :
  gateRun random 2 (id order) (effectivePrice (routeAt random (draws w)))
    (limitPrice order) 1 (2 + draws w) = (g, k, ges) →
  g ≠ Normal true →
  let errorMessage :=
    failureMessage g (effectivePrice (routeAt random (draws w)))
      (limitPrice order) in
  processLimitOrder random readyState order w
  = (Normal {| success := false; r_executedPrice := None; r_txHash := None;
               r_error := Some errorMessage |},
     persisted (id order) failed (Some (failedUpdate errorMessage))
       (advance (2 + k)
          (logToGate random readyState order w ++ ges
           ++ broadcastEffects readyState (connections w)
                (failedMessage order errorMessage)) w)).
Proof.
  intros G Hg errorMessage. subst errorMessage.
  unfold processLimitOrder, processLimitOrder_try. rewrite try_catch_run.
  step_with emitStatus_run. step_with routeOrder_run. at_state w.
  step_with emitStatus_run. at_state w.
  unfold checkLimitWithRetry. rewrite bind_run, checkLimitWithRetry_rec_run.
  at_state w.
  change (maxRetries - 1)%nat with 2%nat. rewrite G. cbv beta iota.
  destruct g as [[|]|e]; [done | |]; cbv beta iota; cbn [negb].
  - destruct (limitPrice order) as [l|] eqn:L; cbn [toFixed2_opt].
    + rewrite !bind_run. cbn [mret M_ret throw]. cbv beta iota.
      rewrite processLimitOrder_catch_run. close_log w.
    + rewrite !bind_run. cbn [throw]. cbv beta iota.
      rewrite processLimitOrder_catch_run. close_log w.
  - rewrite processLimitOrder_catch_run. close_log w.
Qed.

Lemma run_confirmed_log order w k ges :
  gateRun random 2 (id order) (effectivePrice (routeAt random (draws w)))
    (limitPrice order) 1 (2 + draws w) = (Normal true, k, ges) →
  let routeResult := routeAt random (draws w) in
  let swapResult := swapAt random (2 + k + draws w) in
  processLimitOrder random readyState order w
  = (Normal {| success := true;
               r_executedPrice := Some (s_executedPrice swapResult);
               r_txHash := Some (s_txHash swapResult);
               r_error := None |},
     persisted (id order) confirmed
       (Some (confirmedUpdate routeResult swapResult))
       (advance (92 + k)
          (logToGate random readyState order w ++ ges
           ++ logAfterGate random readyState order w k) w)).
Proof.
  intros G routeResult swapResult. subst routeResult swapResult.
  unfold processLimitOrder, processLimitOrder_try. rewrite try_catch_run.
  step_with emitStatus_run. step_with routeOrder_run. at_state w.
  step_with emitStatus_run. at_state w.
  unfold checkLimitWithRetry. rewrite bind_run, checkLimitWithRetry_rec_run.
  at_state w.
  change (maxRetries - 1)%nat with 2%nat. rewrite G. cbv beta iota.
  cbn [negb]. rewrite bind_run. cbn [mret M_ret]. cbv beta iota.
  step_with emitStatus_run. unfold sleep. step_with perform_run.
  step_with emitStatus_run. step_with executeSwap_run.
  step_with emitStatus_run. step_with updateOrderStatus_run.
  cbn [mret M_ret]. cbv beta iota. at_state w.
  repeat match goal with
         | |- context [swapAt random ?n] =>
             lazymatch n with
             | (2 + k + draws w)%nat => fail
             | _ => replace n with (2 + k + draws w)%nat by lia
             end
         | |- context [random ?n] =>
             lazymatch n with
             | (2 + k + draws w)%nat => fail
             | _ => replace n with (2 + k + draws w)%nat by lia
             end
         end.
  close_log w.
Qed.

(** The gate neither broadcasts nor sends, writes nothing to the store
    and requests no swap. *)
Lemma gateRun_quiet fuel orderId p limit attempt n :
  let ges := (gateRun random fuel orderId p limit attempt n).2 in
  broadcasts ges = [] ∧ storeUpdates ges = [] ∧ swapCalls ges = [] ∧
  backoffs ges = [] ∧ ∀ socket, delivered socket ges = [].
Proof.
  revert p attempt n. induction fuel as [|fuel IH]; intros p attempt n;
    cbn [gateRun];
    destruct (checkLimitCondition p limit);
    try (destruct limit; by split_and!);
    destruct (maxRetries <=? attempt)%nat;
    try (destruct limit; by split_and!);
    try (by split_and!).
  specialize (IH (effectivePrice (routeAt random n)) (attempt + 1)%nat (2 + n)%nat).
  destruct (gateRun random fuel orderId _ limit (attempt + 1) (2 + n)) as [[r k] es].
  cbn [fst snd] in *. destruct IH as (Hb & Hs & Hw & Hk & Hd).
  split_and!; [done.. |]. intros socket.
  rewrite delivered_app, Hd. done.
Qed.

(** The two ways a run goes, with what is known of its gate: it made [m]
    retries, two draws each, and a gate that did not pass made both. *)
Lemma run_outcomes order w :
  ∃ g m ges,
    gateOf random order w = (g, (2 * m)%nat, ges) ∧
    (m ≤ 2)%nat ∧
    length (limitChecks ges) = S m ∧
    sleeps ges = replicate m retryDelayMs ∧
    routeCalls ges = replicate m ("SOL", "USDC", 1.5%Q) ∧
    statuses ges = [] ∧ broadcasts ges = [] ∧ storeUpdates ges = [] ∧
    swapCalls ges = [] ∧ backoffs ges = [] ∧
    (∀ socket, delivered socket ges = []) ∧
    let errorMessage :=
      failureMessage g (effectivePrice (routeAt random (draws w)))
        (limitPrice order) in
    let routeResult := routeAt random (draws w) in
    let swapResult := swapAt random (2 + 2 * m + draws w) in
    (g = Normal true ∧
     processLimitOrder random readyState order w
     = (Normal {| success := true;
                  r_executedPrice := Some (s_executedPrice swapResult);
                  r_txHash := Some (s_txHash swapResult);
                  r_error := None |},
        persisted (id order) confirmed
          (Some (confirmedUpdate routeResult swapResult))
          (advance (92 + 2 * m)
             (logToGate random readyState order w ++ ges
              ++ logAfterGate random readyState order w (2 * m)) w))
     ∨
     g ≠ Normal true ∧ m = 2%nat ∧
     processLimitOrder random readyState order w
     = (Normal {| success := false; r_executedPrice := None;
                  r_txHash := None; r_error := Some errorMessage |},
        persisted (id order) failed (Some (failedUpdate errorMessage))
          (advance (2 + 2 * m)
             (logToGate random readyState order w ++ ges
              ++ broadcastEffects readyState (connections w)
                   (failedMessage order errorMessage)) w))).
Proof.
  unfold gateOf. change (maxRetries - 1)%nat with 2%nat.
  pose proof (gateRun_log random 2 (id order)
                (effectivePrice (routeAt random (draws w))) (limitPrice order)
                1 (2 + draws w)) as (m & Hm & Hst & Hlen & Hk & Hsl & Hrc).
  pose proof (gateRun_quiet 2 (id order)
                (effectivePrice (routeAt random (draws w))) (limitPrice order)
                1 (2 + draws w)) as (Hb & Hsu & Hsw & Hbo & Hd).
  pose proof (gateRun_exhausted random 2 (id order)
                (effectivePrice (routeAt random (draws w))) (limitPrice order)
                1 (2 + draws w)) as Hex.
  destruct (gateRun random 2 (id order) (effectivePrice (routeAt random (draws w)))
              (limitPrice order) 1 (2 + draws w)) as [[g k] ges] eqn:G.
  cbn [fst snd] in *. subst k.
  exists g, m, ges. split_and!; try done.
  assert (g = Normal true ∨ g ≠ Normal true) as [->|Hg]
    by (destruct g as [[|]|e]; [by left | by right..]).
  - left. split; [done |]. apply (run_confirmed_log order w _ ges G).
  - right. split; [done |]. split.
    + rewrite Hlen in Hex. unfold maxRetries in Hex.
      specialize (Hex ltac:(lia) ltac:(lia) Hg). lia.
    + apply (run_failed_log order w g _ ges G Hg).
Qed.


Ltac open_log :=
  unfold logToGate, logAfterGate, routingMessage, limitCheckMessage,
    buildingMessage, submittedMessage, confirmedMessage, failedMessage;
  cbv zeta.

(** X8. Whatever the gate does, a run writes to the store exactly once,
    as its last step, under a terminal status; the figures it persists
    are those of the last message it broadcast and those it returns. *)
Theorem run_persists_what_it_broadcasts order w :
  let out := processLimitOrder random readyState order w in
  let es := new_effects w out.2 in
  ∃ res final data,
    out.1 = Normal res ∧
    last (broadcasts es) = Some final ∧
    storeUpdates es = [(id order, m_status final, Some data)] ∧
    last es = Some (StoreUpdate (id order) (m_status final) (Some data)) ∧
    terminal (m_status final) ∧
    (success res = true ↔ m_status final = confirmed) ∧
    (m_data final ≫= d_dex) = u_dex data ∧
    (m_data final ≫= d_price) = u_executedPrice data ∧
    (m_data final ≫= d_txHash) = u_txHash data ∧
    (m_data final ≫= d_error) = u_errorReason data ∧
    r_executedPrice res = u_executedPrice data ∧
    r_txHash res = u_txHash data ∧
    r_error res = u_errorReason data.
Proof.
  intros out es. subst out es.
  destruct (run_outcomes order w)
    as (g & m & ges & _ & _ & _ & _ & _ & _ & Hb & Hsu & _ & _ & _ & Hcase).
  cbv zeta in Hcase.
  destruct Hcase as [(-> & ->)|(Hg & -> & ->)]; cbn [fst snd];
    rewrite new_effects_persisted; open_log;
    autorewrite with log; rewrite Hb, Hsu; cbn [app];
    eexists _, _, _.
  - split; [reflexivity |]. split; [reflexivity |].
    cbn [statusMessage m_status m_data mbind option_bind d_dex d_price
           d_txHash d_error confirmedUpdate u_dex u_executedPrice u_txHash
           u_errorReason success r_executedPrice r_txHash r_error].
    split_and!; try reflexivity.
    + rewrite !app_assoc. apply last_snoc.
    + by left.
    + done.
  - split; [reflexivity |]. split; [reflexivity |].
    cbn [statusMessage m_status m_data mbind option_bind d_dex d_price
           d_txHash d_error failedUpdate u_dex u_executedPrice u_txHash
           u_errorReason success r_executedPrice r_txHash r_error].
    split_and!; try reflexivity.
    + rewrite !app_assoc. apply last_snoc.
    + by right.
    + done.
Qed.


(** X10. A run changes nothing but the outcome of its own order: the
    registry and the rows of all other orders are as before, and in the
    order's own row the id, type, pair, amount, limit price, slippage and
    attempt count are as before. *)
Theorem run_changes_only_the_outcome_of_its_order order w :
  let w' := (processLimitOrder random readyState order w).2 in
  connections w' = connections w ∧
  (∀ other, other ≠ id order → orders w' !! other = orders w !! other) ∧
  (∀ row, orders w !! id order = Some row →
     ∃ row',
       orders w' !! id order = Some row' ∧
       id row' = id row ∧ type row' = type row ∧
       tokenIn row' = tokenIn row ∧ tokenOut row' = tokenOut row ∧
       amountIn row' = amountIn row ∧ limitPrice row' = limitPrice row ∧
       slippage row' = slippage row ∧ attempts row' = attempts row).
Proof.
  intros w'. subst w'.
  destruct (run_outcomes order w)
    as (g & m & ges & _ & _ & _ & _ & _ & _ & _ & _ & _ & _ & _ & Hcase).
  cbv zeta in Hcase.
  destruct Hcase as [(-> & ->)|(Hg & -> & ->)]; cbn [fst snd];
    rewrite connections_persisted, orders_persisted; cbn [advance orders];
    (split_and!;
     [ done
     | intros other Hne; by rewrite lookup_alter_ne
     | intros row Hrow; rewrite lookup_alter_eq, Hrow;
       eexists; split; [reflexivity |]; by split_and! ]).
Qed.

(** X11. The columns of the other outcome are left as they were found: a
    run that ends confirmed does not clear the failure reason of an
    earlier failed run of the order, and a run that ends failed leaves
    venue, price and transaction hash alone. *)
Theorem run_keeps_the_columns_of_the_other_outcome order row w :
  orders w !! id order = Some row →
  let out := processLimitOrder random readyState order w in
  ∃ res row',
    out.1 = Normal res ∧
    orders out.2 !! id order = Some row' ∧
    (success res = true →
     status row' = confirmed ∧ errorReason row' = errorReason row) ∧
    (success res = false →
     status row' = failed ∧ dex row' = dex row ∧
     executedPrice row' = executedPrice row ∧ txHash row' = txHash row).
Proof.
  intros Hrow out. subst out.
  destruct (run_outcomes order w)
    as (g & m & ges & _ & _ & _ & _ & _ & _ & _ & _ & _ & _ & _ & Hcase).
  cbv zeta in Hcase.
  destruct Hcase as [(-> & ->)|(Hg & -> & ->)]; cbn [fst snd];
    rewrite orders_persisted; cbn [advance orders];
    rewrite lookup_alter_eq, Hrow;
    eexists _, _; (split; [reflexivity |]); (split; [reflexivity |]);
    cbn [success]; split; first [discriminate | intros _; by split_and!].
Qed.

(** X12. The router is called once per evaluation of the limit; the run
    waits 3000 ms before every evaluation but the first and 500 ms before
    it submits; it draws two random numbers per evaluation and 90 more
    for a swap; and a run that fails has made all [maxRetries]
    evaluations. *)
Theorem run_accounting order w :
  let out := processLimitOrder random readyState order w in
  let es := new_effects w out.2 in
  ∃ res n,
    out.1 = Normal res ∧
    (1 ≤ n ≤ maxRetries)%nat ∧
    (success res = false → n = maxRetries) ∧
    length (limitChecks es) = n ∧
    length (routeCalls es) = n ∧
    sleeps es
    = replicate (n - 1) retryDelayMs ++ (if success res then [500%Q] else []) ∧
    draws out.2
    = (draws w + 2 * n + (if success res then 90 else 0))%nat.
Proof.
  intros out es. subst out es.
  destruct (run_outcomes order w)
    as (g & m & ges & _ & Hm & Hlen & Hsl & Hrc & _ & _ & _ & _ & _ & _ & Hcase).
  cbv zeta in Hcase.
  destruct Hcase as [(-> & ->)|(Hg & Hm2 & ->)]; cbn [fst snd];
    rewrite new_effects_persisted, draws_persisted; open_log;
    autorewrite with log; rewrite Hsl, Hrc; cbn [advance draws];
    eexists _, (S m); (split; [reflexivity |]); cbn [success];
    rewrite ?length_app, ?Hlen, ?length_replicate;
    cbn [limitChecks routeCalls sleeps omap list_omap length app Nat.sub];
    rewrite ?Nat.sub_0_r, ?app_nil_r, ?Nat.add_0_r;
    unfold maxRetries; split_and!;
    first [reflexivity | lia | discriminate | done].
Qed.


(** The gate of an order without limit price never passes. *)
Lemma gateRun_without_limit fuel orderId p attempt n :
  (gateRun random fuel orderId p None attempt n).1.1 ≠ Normal true.
Proof.
  revert p attempt n. induction fuel as [|fuel IH]; intros p attempt n;
    cbn [gateRun checkLimitCondition];
    destruct (maxRetries <=? attempt)%nat; try done.
  specialize (IH (effectivePrice (routeAt random n)) (attempt + 1)%nat (2 + n)%nat).
  by destruct (gateRun random fuel orderId _ None (attempt + 1) (2 + n))
    as [[r k] es].
Qed.

(** X14. An order that carries no limit price, whatever its type, is
    never executed: its run evaluates the limit [maxRetries] times,
    requests no swap and ends failed. *)
Theorem order_without_limit_price_fails order w :
  limitPrice order = None →
  let out := processLimitOrder random readyState order w in
  let es := new_effects w out.2 in
  ∃ res,
    out.1 = Normal res ∧
    success res = false ∧
    statuses es = [routing; limit_check; failed] ∧
    length (limitChecks es) = maxRetries ∧
    swapCalls es = [] ∧
    status <$> (orders out.2 !! id order)
    = (λ _, failed) <$> (orders w !! id order).
Proof.
  intros Hlimit out es. subst out es.
  pose proof (gateRun_without_limit 2 (id order)
                (effectivePrice (routeAt random (draws w))) 1 (2 + draws w))
    as Hno.
  destruct (run_outcomes order w)
    as (g & m & ges & G & _ & Hlen & _ & _ & Hst & _ & _ & Hsw & _ & _ & Hcase).
  cbv zeta in Hcase. unfold gateOf in G.
  change (maxRetries - 1)%nat with 2%nat in G. rewrite Hlimit, G in *.
  cbn [fst] in Hno.
  destruct Hcase as [(-> & _)|(Hg & -> & ->)]; [done |]. cbn [fst snd].
  rewrite new_effects_persisted, orders_persisted. open_log.
  autorewrite with log. rewrite Hst, Hsw, !length_app, Hlen.
  cbn [advance orders]. rewrite lookup_alter_eq.
  eexists. split_and!; try reflexivity.
  by destruct (orders w !! id order).
Qed.

End RunFacts.

(** ** What the ranges of the draws imply *)

Lemma list_ascii_of_string_app (s1 s2 : string) :
  list_ascii_of_string (s1 ++ s2)%string
  = list_ascii_of_string s1 ++ list_ascii_of_string s2.
Proof. induction s1 as [|c s1 IH]; simpl; [done | by rewrite IH]. Qed.

Lemma string_get_elem (s : string) (n : nat) (c : ascii) :
  String.get n s = Some c → c ∈ list_ascii_of_string s.
Proof.
  revert n. induction s as [|c' s IH]; intros n H; simpl in *; [done |].
  destruct n as [|n].
  - injection H as ->. by left.
  - right. by apply (IH n).
Qed.

Lemma charAt_alphabet (s : string) (i : Z) (c : ascii) :
  c ∈ list_ascii_of_string (charAt s i) → c ∈ list_ascii_of_string s.
Proof.
  unfold charAt. destruct (i <? 0)%Z; simpl; [by intros ?%elem_of_nil |].
  destruct (String.get (Z.to_nat i) s) as [c'|] eqn:E; simpl.
  - intros ->%list_elem_of_singleton. by apply (string_get_elem s _ _ E).
  - by intros ?%elem_of_nil.
Qed.

Section RangeFacts.

Variable random : nat → Q.
Variable readyState : WsManager.WebSocket → nat.

(** [Math.random()] returns a number in [0, 1). *)
Hypothesis random_in_range : ∀ n, (0 <= random n < 1)%Q.

Lemma hashAt_alphabet k n hash c :
  c ∈ list_ascii_of_string (hashAt random k n hash) →
  c ∈ list_ascii_of_string hash ∨ c ∈ list_ascii_of_string chars.
Proof.
  revert n hash. induction k as [|k IH]; intros n hash; cbn [hashAt];
    [by left |].
  intros H. apply IH in H as [H|H]; [| by right].
  rewrite list_ascii_of_string_app in H. apply elem_of_app in H as [H|H].
  - by left.
  - right. by apply charAt_alphabet in H.
Qed.

Lemma raydiumAt_range n :
  let q := raydiumAt random n in
  (181.24463 <= q_price q * (1 - q_fee q) < 188.64237)%Q.
Proof.
  destruct (random_in_range n) as [H0 H1].
  unfold raydiumAt, basePrice. cbn [q_price q_fee]. split; lra.
Qed.

Lemma meteoraAt_range n :
  let q := meteoraAt random n in
  (179.57513 <= q_price q * (1 - q_fee q) < 188.83158)%Q.
Proof.
  destruct (random_in_range n) as [H0 H1].
  unfold meteoraAt, basePrice. cbn [q_price q_fee]. split; lra.
Qed.

Lemma routeAt_range n :
  (179.57513 <= effectivePrice (routeAt random n) < 188.64237)%Q.
Proof.
  pose proof (raydiumAt_range n) as Hr. pose proof (meteoraAt_range (S n)) as Hm.
  cbv zeta in Hr, Hm. unfold routeAt.
  destruct (js_lt (q_price (raydiumAt random n) * (1 - q_fee (raydiumAt random n)))
              (q_price (meteoraAt random (S n))
               * (1 - q_fee (meteoraAt random (S n))))) eqn:E.
  - rewrite (selectQuote_raydium _ _ E). cbn [effectivePrice]. split; lra.
  - rewrite (selectQuote_meteora _ _ E). cbn [effectivePrice].
    apply not_true_iff_false in E. rewrite js_lt_spec in E.
    apply Qnot_lt_le in E. split; lra.
Qed.

(** X15. Every routing decision carries an effective price of at least
    179.57513 and below 188.64237, which is at most the effective price
    of either quote; the router draws twice. *)
Theorem routed_price_stays_in_its_band a b c w :
  ∃ r,
    routeOrder random a b c w
    = (Normal r,
       advance 2 [RouteCall a b c; NetworkDelay 200; NetworkDelay 200] w) ∧
    (179.57513 <= effectivePrice r < 188.64237)%Q ∧
    (effectivePrice r
     <= q_price (raydiumAt random (draws w))
        * (1 - q_fee (raydiumAt random (draws w))))%Q ∧
    (effectivePrice r
     <= q_price (meteoraAt random (S (draws w)))
        * (1 - q_fee (meteoraAt random (S (draws w)))))%Q.
Proof.
  eexists. split; [apply routeOrder_run |].
  split; [apply routeAt_range |]. unfold routeAt.
  destruct (js_lt (q_price (raydiumAt random (draws w))
                   * (1 - q_fee (raydiumAt random (draws w))))
              (q_price (meteoraAt random (S (draws w)))
               * (1 - q_fee (meteoraAt random (S (draws w)))))) eqn:E.
  - rewrite (selectQuote_raydium _ _ E). cbn [effectivePrice].
    apply js_lt_spec in E. split; [apply Qle_refl | by apply Qlt_le_weak].
  - rewrite (selectQuote_meteora _ _ E). cbn [effectivePrice].
    apply not_true_iff_false in E. rewrite js_lt_spec in E.
    apply Qnot_lt_le in E. split; [done | apply Qle_refl].
Qed.

(** X16. An order whose limit price is 188.64237 or more is always
    executed, on the first evaluation of the limit. *)
Theorem limit_above_the_band_always_fills order l w :
  limitPrice order = Some l →
  (188.64237 <= l)%Q →
  let out := processLimitOrder random readyState order w in
  let es := new_effects w out.2 in
  ∃ res,
    out.1 = Normal res ∧
    success res = true ∧
    length (limitChecks es) = 1%nat ∧
    statuses es = [routing; limit_check; building; submitted; confirmed].
Proof.
  intros Hlimit Hl out es. subst out es.
  pose proof (routeAt_range (draws w)) as [_ Hp].
  assert (checkLimitCondition (effectivePrice (routeAt random (draws w)))
            (Some l) = true) as Hc.
  { apply Qle_bool_iff. lra. }
  destruct (run_outcomes random readyState order w)
    as (g & m & ges & G & _ & Hlen & _ & _ & Hst & _ & _ & _ & _ & _ & Hcase).
  cbv zeta in Hcase. unfold gateOf in G. rewrite Hlimit in G.
  rewrite (gateRun_first_pass random _ _ _ _ _ _ Hc) in G.
  injection G as <- Hm <-. assert (m = 0%nat) as -> by lia.
  destruct Hcase as [(_ & ->)|(Hg & _)]; [| done]. cbn [fst snd].
  rewrite new_effects_persisted.
  unfold logToGate, logAfterGate. cbv zeta. autorewrite with log.
  eexists. split_and!; reflexivity.
Qed.

(** With a limit below every price the gate never passes. *)
Lemma gateRun_below_the_band fuel orderId p l attempt n :
  (l < 179.57513)%Q → (179.57513 <= p)%Q →
  (gateRun random fuel orderId p (Some l) attempt n).1.1 = Normal false.
Proof.
  intros Hl. revert p attempt n.
  induction fuel as [|fuel IH]; intros p attempt n Hp; cbn [gateRun];
    (assert (checkLimitCondition p (Some l) = false) as ->
       by (apply not_true_iff_false; intros H%Qle_bool_iff; lra));
    destruct (maxRetries <=? attempt)%nat; try done.
  specialize (IH (effectivePrice (routeAt random n)) (attempt + 1)%nat
                (2 + n)%nat (proj1 (routeAt_range n))).
  by destruct (gateRun random fuel orderId _ (Some l) (attempt + 1) (2 + n))
    as [[r k] es].
Qed.

Lemma string_prefix_append (s t : string) :
  String.prefix s (s ++ t)%string = true.
Proof.
  induction s as [|c s IH]; simpl; [by destruct t |].
  by destruct (ascii_dec c c).
Qed.

Lemma limitNotReachedMessage_prefix bestPrice limit :
  String.prefix "Limit price not reached after 3 attempts. Best price: $"
    (limitNotReachedMessage bestPrice limit) = true.
Proof.
  apply (string_prefix_append
           "Limit price not reached after 3 attempts. Best price: $").
Qed.

(** X17. An order whose limit price is below 179.57513 is never
    executed: its run evaluates the limit [maxRetries] times, waiting
    3000 ms before the second and the third evaluation, requests no swap
    and fails with the reason of a limit that was not reached. *)
Theorem limit_below_the_band_never_fills order l w :
  limitPrice order = Some l →
  (l < 179.57513)%Q →
  let out := processLimitOrder random readyState order w in
  let es := new_effects w out.2 in
  ∃ res reason,
    out.1 = Normal res ∧
    success res = false ∧
    r_error res = Some reason ∧
    String.prefix "Limit price not reached after 3 attempts. Best price: $"
      reason = true ∧
    length (limitChecks es) = maxRetries ∧
    sleeps es = [retryDelayMs; retryDelayMs] ∧
    swapCalls es = [] ∧
    statuses es = [routing; limit_check; failed].
Proof.
  intros Hlimit Hl out es. subst out es.
  pose proof (gateRun_below_the_band 2 (id order)
                (effectivePrice (routeAt random (draws w))) l 1 (2 + draws w)
                Hl (proj1 (routeAt_range (draws w)))) as Hg.
  destruct (run_outcomes random readyState order w)
    as (g & m & ges & G & _ & Hlen & Hsl & _ & Hst & _ & _ & Hsw & _ & _ & Hcase).
  cbv zeta in Hcase. unfold gateOf in G.
  change (maxRetries - 1)%nat with 2%nat in G. rewrite Hlimit, G in *.
  cbn [fst] in Hg. subst g.
  destruct Hcase as [(Hg & _)|(_ & -> & ->)]; [done |]. cbn [fst snd].
  rewrite new_effects_persisted.
  unfold logToGate. autorewrite with log.
  rewrite Hst, Hsw, Hsl, !length_app, Hlen.
  eexists _, _. cbn [failureMessage].
  split_and!; try reflexivity. apply limitNotReachedMessage_prefix.
Qed.

(** X18. [executeSwap] draws 90 times and simulates one delay of at
    least 2000 and at most 3000 ms; its receipt carries a price of at
    least 183.645 and below 187.355 and a hash of 88 characters, all of
    them letters or digits of the alphabet. *)
Theorem executeSwap_receipt dex orderId w :
  ∃ receipt ms,
    executeSwap random dex orderId w
    = (Normal receipt,
       advance 90 [SwapCall dex orderId; NetworkDelay ms] w) ∧
    (2000 <= ms <= 3000)%Q ∧
    (183.645 <= s_executedPrice receipt < 187.355)%Q ∧
    String.length (s_txHash receipt) = 88%nat ∧
    ∀ c, c ∈ list_ascii_of_string (s_txHash receipt) →
         c ∈ list_ascii_of_string chars.
Proof.
  eexists _, _. split; [apply executeSwap_run |].
  destruct (random_in_range (draws w)) as [H0 H1].
  destruct (random_in_range (89 + draws w)) as [H2 H3].
  unfold swapAt, basePrice. cbn [s_txHash s_executedPrice].
  split_and!; try lra.
  - by rewrite hashAt_length.
  - intros c [H|H]%hashAt_alphabet; [by apply elem_of_nil in H | done].
Qed.

(** X19. The price at which a run executes does not depend on the limit
    or on the quote that passed the gate: it is at least 183.645 and
    below 187.355, so an order whose limit is below 183.645 is, when it
    is executed, executed above its limit. *)
Theorem realized_price_ignores_the_limit order l w :
  limitPrice order = Some l →
  let out := processLimitOrder random readyState order w in
  ∃ res,
    out.1 = Normal res ∧
    (success res = true →
     ∃ p,
       r_executedPrice res = Some p ∧
       executedPrice <$> (orders out.2 !! id order)
       = (λ _, Some p) <$> (orders w !! id order) ∧
       (183.645 <= p < 187.355)%Q ∧
       ((l < 183.645)%Q → (l < p)%Q)).
Proof.
  intros Hlimit out. subst out.
  destruct (run_outcomes random readyState order w)
    as (g & m & ges & _ & _ & _ & _ & _ & _ & _ & _ & _ & _ & _ & Hcase).
  cbv zeta in Hcase.
  destruct Hcase as [(-> & ->)|(Hg & -> & ->)]; cbn [fst snd];
    (eexists; split; [reflexivity |]); cbn [success]; [| discriminate].
  intros _. eexists. split; [reflexivity |].
  rewrite orders_persisted. cbn [advance orders]. rewrite lookup_alter_eq.
  split; [by destruct (orders w !! id order) |].
  destruct (random_in_range (89 + (2 + 2 * m + draws w))) as [H0 H1].
  unfold swapAt, basePrice. cbn [s_executedPrice]. split; [split; lra |].
  intros Hl. lra.
Qed.

End RangeFacts.

(** ** The job of an order *)

Lemma error_or_default_nonempty (message : string) :
  message ≠ "" → error_or_default (Some message) = message.
Proof. intros H. by destruct message. Qed.

Section QueueFacts.

Variable random : nat → Q.
Variable readyState : WsManager.WebSocket → nat.

(** One run of the processor on a stored order. *)
Lemma processor_step job row w :
  orders w !! j_orderId job = Some row →
  id row = j_orderId job →
  ∃ c w1 es row1,
    processor random readyState job w = (c, w1) ∧
    effects w1 = effects w ++ es ∧
    orders w1 !! j_orderId job = Some row1 ∧
    id row1 = j_orderId job ∧
    attempts row1 = S (attempts row) ∧
    filter (λ s, s = routing) (statuses es) = [routing] ∧
    length (storeUpdates es) = 1%nat ∧
    backoffs es = [] ∧
    ((∃ ret,
        c = Normal ret ∧ jr_orderId ret = j_orderId job ∧
        status row1 = confirmed ∧
        jr_executedPrice ret = executedPrice row1 ∧
        jr_txHash ret = txHash row1 ∧
        errorReason row1 = errorReason row ∧
        statuses es = [routing; limit_check; building; submitted; confirmed])
     ∨
     (∃ reason,
        c = Throw (JsError reason) ∧ reason ≠ "" ∧
        status row1 = failed ∧ errorReason row1 = Some reason ∧
        statuses es = [routing; limit_check; failed])).
Proof.
  intros Hrow Hid.
  rewrite (processor_run random readyState job row w Hrow).
  set (w0 := (incrementAttempts (id row) w).2).
  assert (effects w0 = effects w) as He by reflexivity.
  assert (orders w0 !! id row = Some (bump_attempts row)) as Ho.
  { subst w0. unfold incrementAttempts, prisma_order_update.
    cbn [snd set_orders orders]. by rewrite lookup_alter_eq, Hid, Hrow. }
  pose proof (failureMessage_nonempty random 2 (id row)
                (effectivePrice (routeAt random (draws w0))) (limitPrice row)
                1 (2 + draws w0) (effectivePrice (routeAt random (draws w0))))
    as Hmsg.
  destruct (run_outcomes random readyState row w0)
    as (g & m & ges & G & _ & _ & _ & _ & Hst & _ & Hsu & _ & Hbo & _ & Hcase).
  cbv zeta in Hcase. unfold gateOf in G.
  change (maxRetries - 1)%nat with 2%nat in G. rewrite G in Hmsg.
  cbn [fst] in Hmsg.
  destruct Hcase as [(-> & ->)|(Hg & -> & ->)]; cbn [success];
    eexists _, _, _, _; (split; [reflexivity |]);
    rewrite effects_persisted, orders_persisted; cbn [advance effects orders];
    rewrite He, <- Hid, lookup_alter_eq, Ho, <- !app_assoc;
    (split; [reflexivity |]); (split; [reflexivity |]);
    unfold logToGate, logAfterGate; cbv zeta; autorewrite with log;
    rewrite Hst, Hsu, Hbo.
  - split_and!; try reflexivity. left. eexists. by split_and!.
  - cbn [r_error]. rewrite (error_or_default_nonempty _ Hmsg).
    split_and!; try reflexivity. right. eexists. by split_and!.
Qed.

(** The job of a stored order under any [JobsOptions]: the processor
    runs until it returns or the attempts are used up. *)
Lemma runJob_rec_outcomes opts remaining made job row w :
  orders w !! j_orderId job = Some row →
  id row = j_orderId job →
  let out := runJob_rec random readyState opts remaining made job w in
  ∃ runs es row',
    (1 ≤ runs ≤ S remaining)%nat ∧
    effects out.2 = effects w ++ es ∧
    orders out.2 !! j_orderId job = Some row' ∧
    attempts row' = (attempts row + runs)%nat ∧
    filter (λ s, s = routing) (statuses es) = replicate runs routing ∧
    length (storeUpdates es) = runs ∧
    backoffs es
    = (λ i, 2 ^ (made + i) * jo_backoff_delay opts)%nat <$> seq 0 (runs - 1) ∧
    statuses es
    = mjoin (replicate (runs - 1) [routing; limit_check; failed])
      ++ match out.1 with
         | JobCompleted _ =>
             [routing; limit_check; building; submitted; confirmed]
         | JobFailed _ => [routing; limit_check; failed]
         end ∧
    match out.1 with
    | JobCompleted ret =>
        jr_orderId ret = j_orderId job ∧
        status row' = confirmed ∧
        jr_executedPrice ret = executedPrice row' ∧
        jr_txHash ret = txHash row' ∧
        (runs = 1%nat → errorReason row' = errorReason row) ∧
        ((1 < runs)%nat →
         ∃ reason, errorReason row' = Some reason ∧ reason ≠ "")
    | JobFailed reason =>
        runs = S remaining ∧ reason ≠ "" ∧
        status row' = failed ∧ errorReason row' = Some reason
    end.
Proof.
  revert made row w. induction remaining as [|remaining IH];
    intros made row w Hrow Hid out; subst out;
    destruct (processor_step job row w Hrow Hid)
      as (c & w1 & es & row1 & Hp & He & Ho & Hid1 & Hat & Hro & Hsu & Hbo
          & [(ret & -> & Hret)|(reason & -> & Hreason)]).
  - rewrite (runJob_rec_completed _ _ _ _ _ _ _ _ _ Hp). cbn [fst snd].
    destruct Hret as (? & ? & ? & ? & ? & ?).
    exists 1%nat, es, row1.
    split_and!; first [done | lia].
  - rewrite (runJob_rec_give_up _ _ _ _ _ _ _ _ Hp). cbn [fst snd error_message].
    destruct Hreason as (? & ? & ? & ?).
    exists 1%nat, es, row1.
    split_and!; first [done | lia].
  - rewrite (runJob_rec_completed _ _ _ _ _ _ _ _ _ Hp). cbn [fst snd].
    destruct Hret as (? & ? & ? & ? & ? & ?).
    exists 1%nat, es, row1.
    split_and!; first [done | lia].
  - rewrite (runJob_rec_retry _ _ _ _ _ _ _ _ _ Hp).
    set (w2 := add_effects _ w1).
    assert (orders w2 !! j_orderId job = Some row1) as Ho2 by exact Ho.
    destruct (IH (S made) row1 w2 Ho2 Hid1)
      as (runs & es' & row' & Hruns & He' & Ho' & Hat' & Hro' & Hsu' & Hbo'
          & Hst' & Hout).
    destruct Hreason as (Hne & Hst1 & Her1 & Hst).
    exists (S runs),
      (es ++ [Backoff (2 ^ (S made - 1) * jo_backoff_delay opts)] ++ es'), row'.
    split_and!.
    + lia.
    + lia.
    + rewrite He'. subst w2. cbn [add_effects effects].
      by rewrite He, <- !app_assoc.
    + done.
    + lia.
    + rewrite !statuses_app, !filter_app, Hro, Hro'. done.
    + rewrite !storeUpdates_app, !length_app, Hsu, Hsu'. done.
    + rewrite !backoffs_app, Hbo, Hbo'. cbn [backoffs omap list_omap app].
      destruct runs as [|runs]; [lia |].
      cbn [Nat.sub]. rewrite !Nat.sub_0_r. cbn [seq fmap list_fmap].
      rewrite Nat.add_0_r. f_equal.
      rewrite <- fmap_S_seq, <- list_fmap_compose.
      apply list_fmap_ext. intros _ i _. unfold compose. cbv beta.
      by replace (made + S i)%nat with (S made + i)%nat by lia.
    + rewrite !statuses_app, Hst, Hst'.
      destruct runs as [|runs]; [lia |].
      cbn [Nat.sub]. rewrite !Nat.sub_0_r.
      cbn [replicate mjoin list_join statuses omap list_omap].
      by rewrite <- !app_assoc.
    + destruct (runJob_rec random readyState opts remaining (S made) job w2).1
        as [ret|reason'].
      * destruct Hout as (? & ? & ? & ? & H1 & Hmore).
        split_and!; try done; [lia |].
        intros _. destruct runs as [|[|runs]]; [lia | |].
        -- rewrite H1 by done. by exists reason.
        -- apply Hmore. lia.
      * destruct Hout as (-> & ? & ? & ?). by split_and!.
Qed.

Lemma new_effects_app w w' es :
  effects w' = effects w ++ es → new_effects w w' = es.
Proof. intros H. unfold new_effects. by rewrite H, drop_app_length. Qed.

(** X20. The job of a stored order runs the state machine once, twice or
    three times, 1000 and then 2000 ms apart; every run announces itself
    with one routing broadcast, writes the store once and raises the
    order's attempt count by one; a job that fails has run three times. *)
Theorem attempts_column_counts_the_runs job row w :
  orders w !! j_orderId job = Some row →
  id row = j_orderId job →
  let out := runJob random readyState addOrderToQueue_options job w in
  let es := new_effects w out.2 in
  ∃ runs row',
    (1 ≤ runs ≤ 3)%nat ∧
    filter (λ s, s = routing) (statuses es) = replicate runs routing ∧
    length (storeUpdates es) = runs ∧
    backoffs es = take (runs - 1) [1000; 2000]%nat ∧
    orders out.2 !! j_orderId job = Some row' ∧
    attempts row' = (attempts row + runs)%nat ∧
    (∀ reason, out.1 = JobFailed reason → runs = 3%nat).
Proof.
  intros Hrow Hid out es. subst out es. unfold runJob.
  cbn [addOrderToQueue_options jo_attempts Nat.sub].
  destruct (runJob_rec_outcomes addOrderToQueue_options 2 0 job row w Hrow Hid)
    as (runs & es & row' & Hruns & He & Ho & Hat & Hro & Hsu & Hbo & _ & Hout).
  rewrite (new_effects_app _ _ _ He).
  exists runs, row'. split_and!; try first [done | lia].
  - rewrite Hbo. destruct runs as [|[|[|[|runs]]]]; first [reflexivity | lia].
  - intros reason E. rewrite E in Hout. by destruct Hout as (-> & _).
Qed.

(** X21. For a subscriber failed is not the last word on an order: the
    job broadcasts the statuses of each of its runs in turn, so every run
    but the last adds routing, limit_check, failed, and the last adds
    these three again or routing, limit_check, building, submitted,
    confirmed. *)
Theorem job_broadcasts_every_run job row w :
  orders w !! j_orderId job = Some row →
  id row = j_orderId job →
  let out := runJob random readyState addOrderToQueue_options job w in
  let es := new_effects w out.2 in
  ∃ retries,
    (retries ≤ 2)%nat ∧
    length (backoffs es) = retries ∧
    statuses es
    = mjoin (replicate retries [routing; limit_check; failed])
      ++ match out.1 with
         | JobCompleted _ =>
             [routing; limit_check; building; submitted; confirmed]
         | JobFailed _ => [routing; limit_check; failed]
         end.
Proof.
  intros Hrow Hid out es. subst out es. unfold runJob.
  cbn [addOrderToQueue_options jo_attempts Nat.sub].
  destruct (runJob_rec_outcomes addOrderToQueue_options 2 0 job row w Hrow Hid)
    as (runs & es & row' & Hruns & He & _ & _ & _ & _ & Hbo & Hst & _).
  rewrite (new_effects_app _ _ _ He).
  exists (runs - 1)%nat. split_and!; [lia | | done].
  by rewrite Hbo, length_fmap, length_seq.
Qed.

(** X22. What the job reports is what was persisted: a completed job
    returns the price and the hash of the order's confirmed row, and a
    failed job fails with the reason of the order's failed row, so the
    default reason of the worker is never used for a stored order. *)
Theorem job_result_is_what_was_persisted job row w :
  orders w !! j_orderId job = Some row →
  id row = j_orderId job →
  let out := runJob random readyState addOrderToQueue_options job w in
  ∃ row',
    orders out.2 !! j_orderId job = Some row' ∧
    match out.1 with
    | JobCompleted ret =>
        jr_orderId ret = j_orderId job ∧
        status row' = confirmed ∧
        jr_executedPrice ret = executedPrice row' ∧
        jr_txHash ret = txHash row'
    | JobFailed reason =>
        status row' = failed ∧ errorReason row' = Some reason ∧ reason ≠ ""
    end.
Proof.
  intros Hrow Hid out. subst out. unfold runJob.
  cbn [addOrderToQueue_options jo_attempts Nat.sub].
  destruct (runJob_rec_outcomes addOrderToQueue_options 2 0 job row w Hrow Hid)
    as (runs & es & row' & _ & _ & Ho & _ & _ & _ & _ & _ & Hout).
  exists row'. split; [done |].
  destruct (runJob_rec random readyState addOrderToQueue_options 2 0 job w).1.
  - destruct Hout as (? & ? & ? & ? & _). by split_and!.
  - destruct Hout as (_ & ? & ? & ?). by split_and!.
Qed.

(** X23. An order that is executed on a retry of its job stays marked
    with the failure of an earlier attempt: its row is confirmed and
    still carries a non-empty failure reason. *)
Theorem order_confirmed_on_a_retry_keeps_a_failure_reason job row w ret :
  orders w !! j_orderId job = Some row →
  id row = j_orderId job →
  let out := runJob random readyState addOrderToQueue_options job w in
  out.1 = JobCompleted ret →
  backoffs (new_effects w out.2) ≠ [] →
  ∃ row' reason,
    orders out.2 !! j_orderId job = Some row' ∧
    status row' = confirmed ∧
    errorReason row' = Some reason ∧ reason ≠ "".
Proof.
  intros Hrow Hid out. subst out. unfold runJob.
  cbn [addOrderToQueue_options jo_attempts Nat.sub].
  destruct (runJob_rec_outcomes addOrderToQueue_options 2 0 job row w Hrow Hid)
    as (runs & es & row' & Hruns & He & Ho & _ & _ & _ & Hbo & _ & Hout).
  rewrite (new_effects_app _ _ _ He), Hbo.
  intros E Hretried. rewrite E in Hout.
  destruct Hout as (_ & Hst & _ & _ & _ & Hmore).
  destruct Hmore as (reason & ? & ?).
  { destruct runs as [|[|runs]]; [lia | by destruct Hretried | lia]. }
  by exists row', reason.
Qed.

(** X24. The job of an order that is not in the store fails after three
    attempts, 1000 and 2000 ms apart, with the reason that the order was
    not found; it draws nothing, broadcasts nothing and writes nothing. *)
Theorem job_of_a_missing_order_fails job w :
  orders w !! j_orderId job = None →
  runJob random readyState addOrderToQueue_options job w
  = (JobFailed ("Order " ++ j_orderId job ++ " not found"),
     add_effects [Backoff 2000] (add_effects [Backoff 1000] w)).
Proof.
  intros Hnone.
  assert (∀ w', orders w' = orders w →
          processor random readyState job w'
          = (Throw (JsError ("Order " ++ j_orderId job ++ " not found")), w'))
    as Hp.
  { intros w' Ho. unfold processor. rewrite try_catch_run, bind_run.
    unfold getOrderById, prisma_order_findUnique. by rewrite Ho, Hnone. }
  unfold runJob. cbn [addOrderToQueue_options jo_attempts Nat.sub].
  rewrite (runJob_rec_retry _ _ _ _ _ _ _ _ _ (Hp w eq_refl)).
  set (w1 := add_effects _ w).
  rewrite (runJob_rec_retry _ _ _ _ _ _ _ _ _ (Hp w1 eq_refl)).
  set (w2 := add_effects _ w1).
  rewrite (runJob_rec_give_up _ _ _ _ _ _ _ _ (Hp w2 eq_refl)).
  reflexivity.
Qed.

End QueueFacts.

(** ** The statistics *)

Lemma countWhere_partition (l : list Order) :
  (countWhere pending l + countWhere routing l + countWhere limit_check l
   + countWhere building l + countWhere submitted l + countWhere confirmed l
   + countWhere failed l)%nat
  = length l.
Proof.
  unfold countWhere. induction l as [|row l IH]; [done |].
  destruct (status row) eqn:E;
    repeat first [ rewrite filter_cons_True by (by rewrite E)
                 | rewrite filter_cons_False by (by rewrite E) ];
    cbn [length]; lia.
Qed.

Lemma countWhere_none (s : OrderStatus) (l : list Order) :
  Forall (λ row, status row ≠ s) l → countWhere s l = 0%nat.
Proof.
  unfold countWhere. induction 1 as [|row l Hrow _ IH]; [done |].
  by rewrite filter_cons_False.
Qed.

Lemma settled_rows (w : World) :
  settled (orders w) →
  Forall (λ row, status row = pending ∨ terminal (status row)) (rows w).
Proof.
  unfold settled, rows. rewrite map_Forall_to_list, Forall_fmap.
  intros H. eapply Forall_impl; [exact H |]. by intros [k row].
Qed.

Lemma settled_alter (f : Order → Order) (k : string) (o : gmap string Order) :
  (∀ row, status row = pending ∨ terminal (status row) →
          status (f row) = pending ∨ terminal (status (f row))) →
  settled o → settled (alter f k o).
Proof.
  intros Hf Ho i row. destruct (decide (k = i)) as [->|Hne].
  - rewrite lookup_alter_eq. destruct (o !! i) as [row0|] eqn:E; [| done].
    intros [= <-]. apply Hf. by apply (Ho i).
  - rewrite lookup_alter_ne by done. apply Ho.
Qed.

Lemma getStatistics_run w :
  getStatistics w
  = (Normal {| n_pending := countWhere pending (rows w);
               n_routing := countWhere routing (rows w);
               n_confirmed := countWhere confirmed (rows w);
               n_failed := countWhere failed (rows w);
               n_total := length (rows w) |}, w).
Proof. reflexivity. Qed.

(** X25. [getStatistics] leaves the store alone, and its four counts by
    status add up to the total less the orders whose status is
    limit_check, building or submitted, which it does not count. *)
Theorem getStatistics_counts_four_statuses w :
  ∃ stats,
    getStatistics w = (Normal stats, w) ∧
    (n_pending stats + n_routing stats + n_confirmed stats + n_failed stats
     + (countWhere limit_check (rows w) + countWhere building (rows w)
        + countWhere submitted (rows w)))%nat
    = n_total stats ∧
    n_total stats = size (orders w).
Proof.
  eexists. split; [apply getStatistics_run |].
  cbn [n_pending n_routing n_confirmed n_failed n_total].
  pose proof (countWhere_partition (rows w)). split; [lia |].
  unfold rows. by rewrite length_fmap, length_map_to_list.
Qed.

Section StatisticsFacts.

Variable random : nat → Q.
Variable readyState : WsManager.WebSocket → nat.

Lemma settled_processor job w :
  settled (orders w) → settled (orders (processor random readyState job w).2).
Proof.
  intros Hs. destruct (orders w !! j_orderId job) as [row|] eqn:Hrow.
  - rewrite (processor_run random readyState job row w Hrow).
    set (w0 := (incrementAttempts (id row) w).2).
    assert (settled (orders w0)) as Hs0.
    { subst w0. unfold incrementAttempts, prisma_order_update.
      cbn [snd set_orders orders]. by apply settled_alter. }
    destruct (run_outcomes random readyState row w0)
      as (g & m & ges & _ & _ & _ & _ & _ & _ & _ & _ & _ & _ & _ & Hcase).
    cbv zeta in Hcase.
    destruct Hcase as [(-> & ->)|(Hg & -> & ->)]; cbn [success snd];
      rewrite orders_persisted; cbn [advance orders];
      apply settled_alter; try done; intros row' _; right;
      [by left | by right].
  - unfold processor. rewrite try_catch_run, bind_run.
    unfold getOrderById, prisma_order_findUnique. by rewrite Hrow.
Qed.

Lemma settled_runJob_rec opts remaining made job w :
  settled (orders w) →
  settled (orders (runJob_rec random readyState opts remaining made job w).2).
Proof.
  revert made w. induction remaining as [|remaining IH]; intros made w Hs;
    pose proof (settled_processor job w Hs) as Hp;
    cbn [runJob_rec];
    destruct (processor random readyState job w) as [[ret|e] w1];
    cbn [snd] in *; try done.
  by apply IH.
Qed.

(** X26. The state machine persists no status but confirmed and failed:
    while every stored order is pending, confirmed or failed, a job keeps
    it so, and [getStatistics] then reports no order as routing and a
    total that is the sum of its pending, confirmed and failed counts. *)
Theorem jobs_persist_only_terminal_statuses job w :
  settled (orders w) →
  let w' := (runJob random readyState addOrderToQueue_options job w).2 in
  settled (orders w') ∧
  ∃ stats,
    getStatistics w' = (Normal stats, w') ∧
    n_routing stats = 0%nat ∧
    (n_pending stats + n_confirmed stats + n_failed stats)%nat = n_total stats.
Proof.
  intros Hs w'.
  assert (settled (orders w')) as Hs' by by apply settled_runJob_rec.
  split; [done |]. eexists. split; [apply getStatistics_run |].
  cbn [n_pending n_routing n_confirmed n_failed n_total].
  pose proof (countWhere_partition (rows w')) as Hsum.
  pose proof (settled_rows w' Hs') as Hrows.
  assert (∀ s, s ≠ pending → ¬ terminal s → countWhere s (rows w') = 0%nat)
    as Hzero.
  { intros s Hp Ht. apply countWhere_none.
    eapply Forall_impl; [exact Hrows |]. cbn. intros row [H|H] E.
    - apply Hp. congruence.
    - apply Ht. congruence. }
  assert (∀ s, s ≠ confirmed → s ≠ failed → ¬ terminal s) as Hnt
    by (intros s ? ? [?|?]; done).
  rewrite (Hzero routing) in * by (done || by apply Hnt).
  rewrite (Hzero limit_check), (Hzero building), (Hzero submitted) in Hsum
    by (done || by apply Hnt).
  split; [done | lia].
Qed.

End StatisticsFacts.

(** ** Sample runs of the further properties *)

Lemma sampleWorld_subscribers limit :
  subscribers "o1" (connections (sampleWorld limit)) = [7%nat].
Proof. reflexivity. Qed.

Lemma retryRandom_in_range : ∀ n, (0 <= retryRandom n < 1)%Q.
Proof.
  intros n. unfold retryRandom.
  destruct (n <? 6)%nat; split; first [discriminate | reflexivity].
Qed.

Lemma unregister_undoes_register_witness :
  WsManager.unregister "o1" 8%nat
    (WsManager.register "o1" 8%nat
       (WsManager.run [WsManager.Register "o1" 7%nat]))
  = WsManager.run [WsManager.Register "o1" 7%nat].
Proof.
  apply (WsMore.unregister_undoes_register [WsManager.Register "o1" 7%nat]
           "o1" 8%nat).
  change (8%nat ∉ [7%nat]). by intros ?%list_elem_of_singleton.
Defined.

Lemma other_orders_are_untouched_witness :
  WsManager.register "o1" 8%nat twoOrders !! "o2" = twoOrders !! "o2" ∧
  WsManager.unregister "o1" 7%nat twoOrders !! "o2" = twoOrders !! "o2" ∧
  WsManager.getConnectionCount "o2" (WsManager.register "o1" 8%nat twoOrders)
  = WsManager.getConnectionCount "o2" twoOrders ∧
  WsManager.getConnectionCount "o2" (WsManager.unregister "o1" 7%nat twoOrders)
  = WsManager.getConnectionCount "o2" twoOrders ∧
  WsManager.emit allOpen "o2" (routingMessage (sampleOrder 100))
    (WsManager.register "o1" 8%nat twoOrders)
  = WsManager.emit allOpen "o2" (routingMessage (sampleOrder 100)) twoOrders ∧
  WsManager.emit allOpen "o2" (routingMessage (sampleOrder 100))
    (WsManager.unregister "o1" 7%nat twoOrders)
  = WsManager.emit allOpen "o2" (routingMessage (sampleOrder 100)) twoOrders.
Proof.
  pose proof (WsMore.other_orders_are_untouched allOpen "o1" "o2" 8%nat
                (routingMessage (sampleOrder 100)) twoOrders) as H8.
  pose proof (WsMore.other_orders_are_untouched allOpen "o1" "o2" 7%nat
                (routingMessage (sampleOrder 100)) twoOrders) as H7.
  cbv zeta in H8, H7.
  destruct H8 as (? & _ & ? & _ & ? & _); [discriminate |].
  destruct H7 as (_ & ? & _ & ? & _ & ?); [discriminate |].
  by split_and!.
Defined.

Lemma new_subscriber_is_served_last_witness :
  WsManager.emit allOpen "o1" (routingMessage (sampleOrder 100))
    (WsManager.register "o1" 8%nat
       (WsManager.run [WsManager.Register "o1" 7%nat]))
  = WsManager.emit allOpen "o1" (routingMessage (sampleOrder 100))
      (WsManager.run [WsManager.Register "o1" 7%nat])
    ++ (if decide (allOpen 8%nat = WsManager.OPEN)
        then [(8%nat, routingMessage (sampleOrder 100))] else []).
Proof.
  apply (WsMore.new_subscriber_is_served_last allOpen "o1" 8%nat
           (routingMessage (sampleOrder 100))
           (WsManager.run [WsManager.Register "o1" 7%nat])).
  change (8%nat ∉ [7%nat]). by intros ?%list_elem_of_singleton.
Defined.

Lemma history_records_the_new_status_as_previous_witness :
  let w' :=
    (updateOrderStatus "o1" failed (Some (failedUpdate "no route"))
       (sampleWorld 100)).2 in
  (∃ row', (getOrderById "o1" w').1 = Normal (Some row')
           ∧ status row' = failed) ∧
  history w'
  = [{| h_orderId := "o1"; h_previousStatus := Some failed;
        h_newStatus := failed; h_dex := None; h_price := None |}].
Proof.
  apply (history_records_the_new_status_as_previous "o1" failed
           (Some (failedUpdate "no route")) (sampleOrder 100) (sampleWorld 100)).
  reflexivity.
Defined.


Lemma run_keeps_the_columns_of_the_other_outcome_witness :
  let out :=
    processLimitOrder sampleRandom allOpen (sampleOrder 100) (sampleWorld 100) in
  ∃ res row',
    out.1 = Normal res ∧
    orders out.2 !! "o1" = Some row' ∧
    (success res = true →
     status row' = confirmed ∧ errorReason row' = None) ∧
    (success res = false →
     status row' = failed ∧ dex row' = None ∧
     executedPrice row' = None ∧ txHash row' = None).
Proof.
  apply (run_keeps_the_columns_of_the_other_outcome sampleRandom allOpen
           (sampleOrder 100) (sampleOrder 100) (sampleWorld 100)).
  reflexivity.
Defined.

Lemma order_without_limit_price_fails_witness :
  let out := processLimitOrder sampleRandom allOpen marketOrder marketWorld in
  let es := new_effects marketWorld out.2 in
  ∃ res,
    out.1 = Normal res ∧
    success res = false ∧
    statuses es = [routing; limit_check; failed] ∧
    length (limitChecks es) = maxRetries ∧
    swapCalls es = [] ∧
    status <$> (orders out.2 !! "o1")
    = (λ _, failed) <$> (orders marketWorld !! "o1").
Proof.
  apply (order_without_limit_price_fails sampleRandom allOpen marketOrder
           marketWorld).
  reflexivity.
Defined.

Lemma routed_price_stays_in_its_band_witness :
  ∃ r,
    routeOrder sampleRandom "ETH" "USDT" 10 (sampleWorld 100)
    = (Normal r,
       advance 2 [RouteCall "ETH" "USDT" 10; NetworkDelay 200; NetworkDelay 200]
         (sampleWorld 100)) ∧
    (179.57513 <= effectivePrice r < 188.64237)%Q ∧
    (effectivePrice r
     <= q_price (raydiumAt sampleRandom 0) * (1 - q_fee (raydiumAt sampleRandom 0)))%Q ∧
    (effectivePrice r
     <= q_price (meteoraAt sampleRandom 1) * (1 - q_fee (meteoraAt sampleRandom 1)))%Q.
Proof.
  apply (routed_price_stays_in_its_band sampleRandom sampleRandom_in_range
           "ETH" "USDT" 10 (sampleWorld 100)).
Defined.

Lemma limit_above_the_band_always_fills_witness :
  let out :=
    processLimitOrder sampleRandom allOpen (sampleOrder 1000)
      (sampleWorld 1000) in
  let es := new_effects (sampleWorld 1000) out.2 in
  ∃ res,
    out.1 = Normal res ∧
    success res = true ∧
    length (limitChecks es) = 1%nat ∧
    statuses es = [routing; limit_check; building; submitted; confirmed].
Proof.
  apply (limit_above_the_band_always_fills sampleRandom allOpen
           sampleRandom_in_range (sampleOrder 1000) 1000 (sampleWorld 1000)).
  - reflexivity.
  - apply Qle_bool_iff. vm_compute. reflexivity.
Defined.

Lemma limit_below_the_band_never_fills_witness :
  let out :=
    processLimitOrder sampleRandom allOpen (sampleOrder 100) (sampleWorld 100) in
  let es := new_effects (sampleWorld 100) out.2 in
  ∃ res reason,
    out.1 = Normal res ∧
    success res = false ∧
    r_error res = Some reason ∧
    String.prefix "Limit price not reached after 3 attempts. Best price: $"
      reason = true ∧
    length (limitChecks es) = maxRetries ∧
    sleeps es = [retryDelayMs; retryDelayMs] ∧
    swapCalls es = [] ∧
    statuses es = [routing; limit_check; failed].
Proof.
  apply (limit_below_the_band_never_fills sampleRandom allOpen
           sampleRandom_in_range (sampleOrder 100) 100 (sampleWorld 100)).
  - reflexivity.
  - reflexivity.
Defined.

Lemma executeSwap_receipt_witness :
  ∃ receipt ms,
    executeSwap sampleRandom METEORA "o1" (sampleWorld 100)
    = (Normal receipt,
       advance 90 [SwapCall METEORA "o1"; NetworkDelay ms] (sampleWorld 100)) ∧
    (2000 <= ms <= 3000)%Q ∧
    (183.645 <= s_executedPrice receipt < 187.355)%Q ∧
    String.length (s_txHash receipt) = 88%nat ∧
    ∀ c, c ∈ list_ascii_of_string (s_txHash receipt) →
         c ∈ list_ascii_of_string chars.
Proof.
  apply (executeSwap_receipt sampleRandom sampleRandom_in_range METEORA "o1"
           (sampleWorld 100)).
Defined.

(** With the limit 182 the first quote, 181.89, passes the gate, and the
    order is executed at 186.984, above its limit. *)
Lemma realized_price_ignores_the_limit_witness :
  let out :=
    processLimitOrder sampleRandom allOpen (sampleOrder 182) (sampleWorld 182) in
  (∃ res,
     out.1 = Normal res ∧
     (success res = true →
      ∃ p,
        r_executedPrice res = Some p ∧
        executedPrice <$> (orders out.2 !! "o1")
        = (λ _, Some p) <$> (orders (sampleWorld 182) !! "o1") ∧
        (183.645 <= p < 187.355)%Q ∧
        ((182 < 183.645)%Q → (182 < p)%Q))) ∧
  success <$> (match out.1 with Normal res => Some res | Throw _ => None end)
  = Some true.
Proof.
  split.
  - apply (realized_price_ignores_the_limit sampleRandom allOpen
             sampleRandom_in_range (sampleOrder 182) 182 (sampleWorld 182)).
    reflexivity.
  - vm_compute. reflexivity.
Defined.

Lemma attempts_column_counts_the_runs_witness :
  let out :=
    runJob sampleRandom allOpen addOrderToQueue_options (sampleJob 100)
      (sampleWorld 100) in
  let es := new_effects (sampleWorld 100) out.2 in
  ∃ runs row',
    (1 ≤ runs ≤ 3)%nat ∧
    filter (λ s, s = routing) (statuses es) = replicate runs routing ∧
    length (storeUpdates es) = runs ∧
    backoffs es = take (runs - 1) [1000; 2000]%nat ∧
    orders out.2 !! "o1" = Some row' ∧
    attempts row' = (0 + runs)%nat ∧
    (∀ reason, out.1 = JobFailed reason → runs = 3%nat).
Proof.
  apply (attempts_column_counts_the_runs sampleRandom allOpen (sampleJob 100)
           (sampleOrder 100) (sampleWorld 100)); reflexivity.
Defined.

Lemma job_result_is_what_was_persisted_witness :
  let out :=
    runJob sampleRandom allOpen addOrderToQueue_options (sampleJob 100)
      (sampleWorld 100) in
  ∃ row',
    orders out.2 !! "o1" = Some row' ∧
    match out.1 with
    | JobCompleted ret =>
        jr_orderId ret = "o1" ∧
        status row' = confirmed ∧
        jr_executedPrice ret = executedPrice row' ∧
        jr_txHash ret = txHash row'
    | JobFailed reason =>
        status row' = failed ∧ errorReason row' = Some reason ∧ reason ≠ ""
    end.
Proof.
  apply (job_result_is_what_was_persisted sampleRandom allOpen (sampleJob 100)
           (sampleOrder 100) (sampleWorld 100)); reflexivity.
Defined.

(** The first run misses the limit 180 three times at 187.90; the second
    meets it at 179.58 and executes: the row is confirmed and still
    carries the reason of the first run. *)
Lemma order_confirmed_on_a_retry_keeps_a_failure_reason_witness :
  ∃ row' reason,
    orders
      (runJob retryRandom allOpen addOrderToQueue_options (sampleJob 180)
         (sampleWorld 180)).2 !! "o1"
    = Some row' ∧
    status row' = confirmed ∧
    errorReason row' = Some reason ∧ reason ≠ "".
Proof.
  eapply (order_confirmed_on_a_retry_keeps_a_failure_reason retryRandom allOpen
            (sampleJob 180) (sampleOrder 180) (sampleWorld 180)).
  - reflexivity.
  - reflexivity.
  - vm_compute. reflexivity.
  - vm_compute. discriminate.
Defined.

Lemma job_of_a_missing_order_fails_witness :
  runJob sampleRandom allOpen addOrderToQueue_options strayJob (sampleWorld 100)
  = (JobFailed "Order o2 not found",
     add_effects [Backoff 2000] (add_effects [Backoff 1000] (sampleWorld 100))).
Proof.
  apply (job_of_a_missing_order_fails sampleRandom allOpen strayJob
           (sampleWorld 100)).
  reflexivity.
Defined.

Lemma jobs_persist_only_terminal_statuses_witness :
  let w' :=
    (runJob sampleRandom allOpen addOrderToQueue_options (sampleJob 100)
       (sampleWorld 100)).2 in
  settled (orders w') ∧
  ∃ stats,
    getStatistics w' = (Normal stats, w') ∧
    n_routing stats = 0%nat ∧
    (n_pending stats + n_confirmed stats + n_failed stats)%nat = n_total stats.
Proof.
  apply (jobs_persist_only_terminal_statuses sampleRandom allOpen
           (sampleJob 100) (sampleWorld 100)).
  apply map_Forall_singleton. by left.
Defined.

Lemma job_broadcasts_every_run_witness :
  let out :=
    runJob retryRandom allOpen addOrderToQueue_options (sampleJob 180)
      (sampleWorld 180) in
  let es := new_effects (sampleWorld 180) out.2 in
  ∃ retries,
    (retries ≤ 2)%nat ∧
    length (backoffs es) = retries ∧
    statuses es
    = mjoin (replicate retries [routing; limit_check; failed])
      ++ match out.1 with
         | JobCompleted _ =>
             [routing; limit_check; building; submitted; confirmed]
         | JobFailed _ => [routing; limit_check; failed]
         end.
Proof.
  apply (job_broadcasts_every_run retryRandom allOpen (sampleJob 180)
           (sampleOrder 180) (sampleWorld 180)); reflexivity.
Defined.
